(** * rd-station-go: the query encoder and the request pipeline

    A shallow embedding of [StructToQueryString] of [utils.go], of the
    [request] method of the client and of the six endpoint wrappers for
    deals and contacts, together with the parts of Go's standard library
    they call ([net/url], [strings], [strconv], [fmt], [errors],
    [reflect]).

    Go strings are byte strings: they are modelled by [string], whose
    characters are the 256 values of [ascii].  [url.Values] is a Go
    [map[string][]string]: it is a [gmap string (list string)].  A call of
    the pipeline is a computation in a small monad that logs what the call
    does to the outside and ends at the first error, as the Go code returns
    at [err != nil]. *)

From Stdlib Require Import ZArith NArith String Ascii List Bool Lia.
From Stdlib Require Import DecimalString DecimalZ DecimalPos.
From stdpp Require Import base option list gmap strings fin_maps sorting.

#[local] Set Warnings "-clear-no-such-hyp".

Local Open Scope string_scope.
Local Open Scope list_scope.
Local Open Scope Z_scope.

(** ** Package [strings] *)

Module Strings.

(** [strings.Contains(s, substr)]. *)
Fixpoint Contains (s substr : string) : bool :=
  String.prefix substr s ||
  match s with
  | EmptyString => false
  | String _ s' => Contains s' substr
  end.

(** [strings.Cut(s, sep)] for a one-byte separator: the text before and
    after the first [sep], and whether [sep] was found. *)
Fixpoint Cut (s : string) (sep : ascii) : string * string * bool :=
  match s with
  | EmptyString => (EmptyString, EmptyString, false)
  | String c s' =>
      if Ascii.eqb c sep then (EmptyString, s', true)
      else let '(before, after, found) := Cut s' sep in
           (String c before, after, found)
  end.

(** [strings.Split(s, sep)] for a one-byte separator. *)
Fixpoint Split (s : string) (sep : ascii) : list string :=
  match s with
  | EmptyString => [EmptyString]
  | String c s' =>
      if Ascii.eqb c sep then EmptyString :: Split s' sep
      else match Split s' sep with
           | [] => [String c EmptyString]
           | x :: xs => String c x :: xs
           end
  end.

(** Every byte of [s] satisfies [p]. *)
Fixpoint all (p : ascii -> bool) (s : string) : bool :=
  match s with
  | EmptyString => true
  | String c s' => p c && all p s'
  end.

End Strings.

(** ** Package [strconv] *)

Module Strconv.

(** [strconv.FormatInt(i, 10)]. *)
Definition FormatInt (i : Z) : string :=
  NilZero.string_of_int (Z.to_int i).

(** [strconv.ParseInt(s, 10, 64)] without the range check; used to state
    that [FormatInt] writes the number in base 10. *)
Definition ParseInt (s : string) : option Z :=
  Z.of_int <$> NilZero.int_of_string s.

(** [strconv.FormatBool]. *)
Definition FormatBool (b : bool) : string :=
  if b then "true" else "false".

End Strconv.

(** ** Package [errors] and [fmt.Errorf] *)

(** The four package-level error variables of [contacts.go]. *)
Inductive sentinel : Set :=
| ErrRequestFailed
| ErrReadResponseBody
| ErrApiReturnedError
| ErrDecodeResponse.

(** An [error] value.  A package-level variable is identified by its name
    (Go compares the pointers), every other error by its text and by the
    errors it wraps. *)
Local Unset Elimination Schemes.
Inductive error : Type :=
| Sentinel (s : sentinel)
| ErrorString (text : string)
| WrapErrors (text : string) (wrapped : list error).
Local Set Elimination Schemes.

Definition sentinel_text (s : sentinel) : string :=
  match s with
  | ErrRequestFailed => "http request execution failed"
  | ErrReadResponseBody => "failed to read response body"
  | ErrApiReturnedError => "api returned an error status"
  | ErrDecodeResponse => "failed to decode api response"
  end.

(** The [Error()] method. *)
Definition Error (e : error) : string :=
  match e with
  | Sentinel s => sentinel_text s
  | ErrorString text => text
  | WrapErrors text _ => text
  end.

Definition sentinel_eqb (a b : sentinel) : bool :=
  match a, b with
  | ErrRequestFailed, ErrRequestFailed
  | ErrReadResponseBody, ErrReadResponseBody
  | ErrApiReturnedError, ErrApiReturnedError
  | ErrDecodeResponse, ErrDecodeResponse => true
  | _, _ => false
  end.

(** [err == target]. *)
Fixpoint error_eqb (a b : error) {struct a} : bool :=
  match a, b with
  | Sentinel s, Sentinel t => sentinel_eqb s t
  | ErrorString s, ErrorString t => String.eqb s t
  | WrapErrors s es, WrapErrors t fs =>
      String.eqb s t &&
      (fix all2 (es fs : list error) {struct es} : bool :=
         match es, fs with
         | [], [] => true
         | e :: es', f :: fs' => error_eqb e f && all2 es' fs'
         | _, _ => false
         end) es fs
  | _, _ => false
  end.

(** [errors.Is(err, target)]: [err] is [target] or wraps it, at any depth. *)
Fixpoint Is (err target : error) {struct err} : bool :=
  error_eqb err target ||
  match err with
  | WrapErrors _ wrapped => existsb (fun e => Is e target) wrapped
  | _ => false
  end.

(** An operand of [fmt.Errorf]. *)
Inductive operand : Type :=
| OpErr (e : error)
| OpInt (n : Z)
| OpStr (s : string).

(** The text [%w], [%d], [%s] and [%v] print for an operand. *)
Definition operand_text (a : operand) : string :=
  match a with
  | OpErr e => Error e
  | OpInt n => Strconv.FormatInt n
  | OpStr s => s
  end.

(** One pass over the format: the text printed and the operands of the
    [%w] verbs.  [%%] prints a percent sign; a verb without an operand
    prints [%!v(MISSING)], a [%] at the end [%!(NOVERB)]. *)
Fixpoint format (fmt : string) (args : list operand) : string * list error :=
  match fmt with
  | EmptyString => (EmptyString, [])
  | String c rest =>
      if Ascii.eqb c "%" then
        match rest with
        | String verb rest' =>
            if Ascii.eqb verb "%" then
              let '(text, ws) := format rest' args in (String "%" text, ws)
            else
              match args with
              | a :: args' =>
                  let '(text, ws) := format rest' args' in
                  (operand_text a +:+ text,
                   match a with
                   | OpErr e => if Ascii.eqb verb "w" then e :: ws else ws
                   | _ => ws
                   end)
              | [] =>
                  let '(text, ws) := format rest' [] in
                  (String "%"
                     (String "!" (String verb ("(MISSING)" +:+ text))),
                   ws)
              end
        | EmptyString => ("%!(NOVERB)", [])
        end
      else
        let '(text, ws) := format rest args in (String c text, ws)
  end.

(** [fmt.Errorf(format, args...)]: an error wrapping the operands of its
    [%w] verbs, or a plain error when there are none. *)
Definition Errorf (fmt : string) (args : list operand) : error :=
  let '(text, ws) := format fmt args in
  match ws with
  | [] => ErrorString text
  | _ => WrapErrors text ws
  end.

(** A Go result pair [(T, error)] of which exactly one side is set. *)
Inductive result (T : Type) : Type :=
| Ok (x : T)
| Err (e : error).
Arguments Ok {T} x.
Arguments Err {T} e.

(** ** Package [net/url] *)

Module Url.

Definition is_alnum (c : ascii) : bool :=
  let n := N_of_ascii c in
  ((97 <=? n) && (n <=? 122) || (65 <=? n) && (n <=? 90) ||
   (48 <=? n) && (n <=? 57))%N.

(** [shouldEscape(c, encodeQueryComponent)]: letters, digits and
    [-_.~] are kept, the reserved characters [$&+,/:;=?@] and every other
    byte are escaped. *)
Definition shouldEscape (c : ascii) : bool :=
  if is_alnum c then false
  else if Ascii.eqb c "-" || Ascii.eqb c "_" || Ascii.eqb c "." ||
          Ascii.eqb c "~" then false
  else true.

Definition upperhex : string := "0123456789ABCDEF".

Definition hexdigit (n : N) : ascii :=
  match String.get (N.to_nat n) upperhex with
  | Some d => d
  | None => "0"%char
  end.

(** [QueryEscape(s)]: a space becomes [+], an escaped byte [%XX]. *)
Fixpoint QueryEscape (s : string) : string :=
  match s with
  | EmptyString => EmptyString
  | String c s' =>
      if shouldEscape c then
        if Ascii.eqb c " " then String "+" (QueryEscape s')
        else String "%"
               (String (hexdigit (N.shiftr (N_of_ascii c) 4))
                  (String (hexdigit (N.land (N_of_ascii c) 15))
                     (QueryEscape s')))
      else String c (QueryEscape s')
  end.

Definition ishex (c : ascii) : bool :=
  let n := N_of_ascii c in
  ((48 <=? n) && (n <=? 57) || (97 <=? n) && (n <=? 102) ||
   (65 <=? n) && (n <=? 70))%N.

Definition unhex (c : ascii) : N :=
  let n := N_of_ascii c in
  (if (48 <=? n) && (n <=? 57) then n - 48
   else if (97 <=? n) && (n <=? 102) then n - 97 + 10
   else if (65 <=? n) && (n <=? 70) then n - 65 + 10
   else 0)%N.

(** [QueryUnescape(s)]: [None] stands for the [EscapeError] of a [%] that
    is not followed by two hexadecimal digits. *)
Fixpoint QueryUnescape (s : string) : option string :=
  match s with
  | EmptyString => Some EmptyString
  | String c s' =>
      if Ascii.eqb c "%" then
        match s' with
        | String h (String l rest) =>
            if ishex h && ishex l then
              String (ascii_of_N (N.lor (N.shiftl (unhex h) 4) (unhex l)))
                <$> QueryUnescape rest
            else None
        | _ => None
        end
      else if Ascii.eqb c "+" then String " " <$> QueryUnescape s'
      else String c <$> QueryUnescape s'
  end.

(** [Values.Add(key, value)]: [v[key] = append(v[key], value)]. *)
Definition Add (v : gmap string (list string)) (key value : string)
  : gmap string (list string) :=
  <[key := default [] (v !! key) ++ [value]]> v.

(** The order of [slices.Sorted(maps.Keys(v))]: byte-wise. *)
Definition key_le (p q : string * list string) : Prop :=
  String.leb p.1 q.1 = true.

#[global] Instance key_le_dec p q : Decision (key_le p q).
Proof. unfold key_le. apply _. Defined.

(** The entries of the map with their keys in increasing order. *)
Definition entries (v : gmap string (list string))
  : list (string * list string) :=
  merge_sort key_le (map_to_list v).

(** The (key, value) pairs in the order [Encode] writes them. *)
Definition pairs (v : gmap string (list string)) : list (string * string) :=
  entries v ≫= (fun e => pair e.1 <$> e.2).

(** One step of the loop body of [Encode] on the [strings.Builder]. *)
Definition write_pair (buf : string) (p : string * string) : string :=
  (if String.eqb buf "" then "" else buf +:+ "&") +:+
  QueryEscape p.1 +:+ "=" +:+ QueryEscape p.2.

(** [Values.Encode()]; on the empty map the loop writes nothing and the
    result is the empty string, as the test [len(v) == 0] returns. *)
Definition Encode (v : gmap string (list string)) : string :=
  foldl write_pair "" (pairs v).

(** One iteration of the loop of [parseQuery] on the piece [key] cut
    off at the next [&]; the first error is kept. *)
Definition parse_piece (acc : gmap string (list string) * option error)
    (key : string) : gmap string (list string) * option error :=
  let '(m, err) := acc in
  let fail e := (m, Some (default e err)) in
  if Strings.Contains key ";" then
    fail (ErrorString "invalid semicolon separator in query")
  else if String.eqb key "" then acc
  else
    let '(k, value, _) := Strings.Cut key "=" in
    match QueryUnescape k with
    | None => fail (ErrorString "invalid URL escape")
    | Some k1 =>
        match QueryUnescape value with
        | None => fail (ErrorString "invalid URL escape")
        | Some v1 => (Add m k1 v1, err)
        end
    end.

(** [ParseQuery(query)]: the decoder of [Encode]. *)
Definition ParseQuery (query : string)
  : gmap string (list string) * option error :=
  foldl parse_piece (∅, None) (Strings.Split query "&").

End Url.

(** ** Package [reflect] and the verb [%v] of [fmt] *)

Module Reflect.

(** [reflect.Kind]. *)
Inductive Kind : Set :=
| Invalid | Bool
| Int | Int8 | Int16 | Int32 | Int64
| Uint | Uint8 | Uint16 | Uint32 | Uint64 | Uintptr
| Float32 | Float64 | Complex64 | Complex128
| Array | Chan | Func | Interface | Map | Pointer
| Slice | String | Struct | UnsafePointer.

(** The signed and the unsigned integer types, by width. *)
Inductive IntType : Set := TInt | TInt8 | TInt16 | TInt32 | TInt64.
Inductive UintType : Set :=
| TUint | TUint8 | TUint16 | TUint32 | TUint64 | TUintptr.

(** The kinds whose values the encoder never looks into. *)
Inductive OtherType : Set :=
| TFloat32 | TFloat64 | TComplex64 | TComplex128
| TArray | TChan | TFunc | TInterface | TMap | TPointer | TUnsafePointer.

(** [reflect.StructTag], already split in its [key:"value"] pairs. *)
Definition StructTag : Type := list (string * string).

(** [reflect.StructField]: the declared name and the tag. *)
Record StructField : Type := { Name : string; Tag : StructTag }.

(** A Go value as [reflect.ValueOf] sees it.  [VInvalid] is the zero
    [Value] of a nil interface; a signed integer carries the [int64] that
    [v.Int()] returns; a value of a kind the encoder has no case for
    carries the text [%v] prints for it. *)
Local Unset Elimination Schemes.
Inductive Value : Type :=
| VInvalid
| VBool (b : bool)
| VInt (t : IntType) (i : Z)
| VUint (t : UintType) (u : N)
| VString (s : string)
| VSlice (elems : list Value)
| VStruct (fields : list (StructField * Value))
| VOther (t : OtherType) (text : string).
Local Set Elimination Schemes.

Definition IntKind (t : IntType) : Kind :=
  match t with
  | TInt => Int | TInt8 => Int8 | TInt16 => Int16
  | TInt32 => Int32 | TInt64 => Int64
  end.

Definition UintKind (t : UintType) : Kind :=
  match t with
  | TUint => Uint | TUint8 => Uint8 | TUint16 => Uint16
  | TUint32 => Uint32 | TUint64 => Uint64 | TUintptr => Uintptr
  end.

Definition OtherKind (t : OtherType) : Kind :=
  match t with
  | TFloat32 => Float32 | TFloat64 => Float64
  | TComplex64 => Complex64 | TComplex128 => Complex128
  | TArray => Array | TChan => Chan | TFunc => Func
  | TInterface => Interface | TMap => Map | TPointer => Pointer
  | TUnsafePointer => UnsafePointer
  end.

(** [v.Kind()]. *)
Definition KindOf (v : Value) : Kind :=
  match v with
  | VInvalid => Invalid
  | VBool _ => Bool
  | VInt t _ => IntKind t
  | VUint t _ => UintKind t
  | VString _ => String
  | VSlice _ => Slice
  | VStruct _ => Struct
  | VOther t _ => OtherKind t
  end.

(** [tag.Get(key)]: the value of [key], the empty string without it. *)
Fixpoint Get (tag : StructTag) (key : string) : string :=
  match tag with
  | [] => EmptyString
  | (k, v) :: tag' => if String.eqb k key then v else Get tag' key
  end.

(** [v.String()], [v.Int()], [v.Bool()] on a value of that kind. *)
Definition StringOf (v : Value) : string :=
  match v with VString s => s | _ => EmptyString end.
Definition IntOf (v : Value) : Z :=
  match v with VInt _ i => i | _ => 0 end.
Definition BoolOf (v : Value) : bool :=
  match v with VBool b => b | _ => false end.

(** The elements [v.Index(0)], ..., [v.Index(v.Len() - 1)] of a slice. *)
Definition Elems (v : Value) : list Value :=
  match v with VSlice elems => elems | _ => [] end.

(** The fields [(v.Type().Field(i), v.Field(i))] of a struct, for [i]
    from [0] to [v.NumField() - 1]. *)
Definition Fields (v : Value) : list (StructField * Value) :=
  match v with VStruct fields => fields | _ => [] end.

Definition join_space (l : list string) : string :=
  match l with
  | [] => EmptyString
  | x :: xs => foldl (fun acc y => acc +:+ " " +:+ y) x xs
  end.

(** [fmt.Sprintf("%v", v)]. *)
Fixpoint Sprintf_v (v : Value) : string :=
  match v with
  | VInvalid => "<invalid reflect.Value>"
  | VBool b => Strconv.FormatBool b
  | VInt _ i => Strconv.FormatInt i
  | VUint _ u => Strconv.FormatInt (Z.of_N u)
  | VString s => s
  | VSlice elems => "[" +:+ join_space (List.map Sprintf_v elems) +:+ "]"
  | VStruct fields =>
      "{" +:+ join_space (List.map (fun f => Sprintf_v (snd f)) fields) +:+ "}"
  | VOther _ text => text
  end.

End Reflect.

(** ** [utils.go] *)

(** The parameter name of a field: lines 22 to 25 of [utils.go]. *)
Definition param_name (fieldType : Reflect.StructField) : string :=
  let tag := Reflect.Get (Reflect.Tag fieldType) "query" in
  if String.eqb tag "" || String.eqb tag "-" then Reflect.Name fieldType
  else tag.

(** The body of the loop over the fields: lines 19 to 44 of [utils.go]. *)
Definition add_field (queryParams : gmap string (list string))
    (f : Reflect.StructField * Reflect.Value) : gmap string (list string) :=
  let '(fieldType, field) := f in
  let tag := param_name fieldType in
  match Reflect.KindOf field with
  | Reflect.String =>
      if negb (String.eqb (Reflect.StringOf field) "")
      then Url.Add queryParams tag (Reflect.StringOf field)
      else queryParams
  | Reflect.Int | Reflect.Int8 | Reflect.Int16 | Reflect.Int32
  | Reflect.Int64 =>
      if negb (Z.eqb (Reflect.IntOf field) 0)
      then Url.Add queryParams tag (Strconv.FormatInt (Reflect.IntOf field))
      else queryParams
  | Reflect.Bool =>
      if Reflect.BoolOf field
      then Url.Add queryParams tag (Strconv.FormatBool (Reflect.BoolOf field))
      else queryParams
  | Reflect.Slice =>
      foldl (fun q elem => Url.Add q tag (Reflect.Sprintf_v elem))
        queryParams (Reflect.Elems field)
  | _ => queryParams
  end.

(** The map [queryParams] after the loop over the fields. *)
Definition query_params (fields : list (Reflect.StructField * Reflect.Value))
  : gmap string (list string) :=
  foldl add_field ∅ fields.

(** [StructToQueryString(data)]. *)
Definition StructToQueryString (data : Reflect.Value) : result string :=
  match Reflect.KindOf data with
  | Reflect.Struct => Ok (Url.Encode (query_params (Reflect.Fields data)))
  | _ => Err (Errorf "input is not a struct" [])
  end.

(** ** The filter records of the two listing calls *)

(** A field of type [string] with the tags [form:"..." query:"..."]. *)
Definition string_field (name form query value : string)
  : Reflect.StructField * Reflect.Value :=
  ({| Reflect.Name := name;
      Reflect.Tag := [("form", form); ("query", query)] |},
   Reflect.VString value).

Module ListDealsFilterRequest.

Record t : Type := {
  Token : string;
  Page : string;
  Limit : string;
  Order : string;
  Direction : string;
  Name : string;
  ExactName : string;
  Win : string;
  UserID : string;
  ClosedAt : string;
  ClosedAtPeriod : string;
  CreatedAtPeriod : string;
  PredictionDatePeriod : string;
  StartDate : string;
  EndDate : string;
  CampaignID : string;
  DealStageID : string;
  DealLostReasonID : string;
  DealPipelineID : string;
  Organization : string;
  Hold : string;
  ProductPresence : string;
  NextPage : string
}.

(** [reflect.ValueOf(filter)]: the fields in the order of the
    declaration, with their tags. *)
Definition ValueOf (f : t) : Reflect.Value :=
  Reflect.VStruct
    [ string_field "Token" "token" "token" (Token f);
      string_field "Page" "page,omitempty" "page" (Page f);
      string_field "Limit" "limit,omitempty" "limit" (Limit f);
      string_field "Order" "order,omitempty" "order" (Order f);
      string_field "Direction" "direction,omitempty" "direction" (Direction f);
      string_field "Name" "name,omitempty" "name" (Name f);
      string_field "ExactName" "exact_name,omitempty" "exact_name" (ExactName f);
      string_field "Win" "win,omitempty" "win" (Win f);
      string_field "UserID" "user_id,omitempty" "user_id" (UserID f);
      string_field "ClosedAt" "closed_at,omitempty" "closed_at" (ClosedAt f);
      string_field "ClosedAtPeriod" "closed_at_period,omitempty"
        "closed_at_period" (ClosedAtPeriod f);
      string_field "CreatedAtPeriod" "created_at_period,omitempty"
        "created_at_period" (CreatedAtPeriod f);
      string_field "PredictionDatePeriod" "prediction_date_period,omitempty"
        "prediction_date_period" (PredictionDatePeriod f);
      string_field "StartDate" "start_date,omitempty" "start_date" (StartDate f);
      string_field "EndDate" "end_date,omitempty" "end_date" (EndDate f);
      string_field "CampaignID" "campaign_id,omitempty" "campaign_id" (CampaignID f);
      string_field "DealStageID" "deal_stage_id,omitempty" "deal_stage_id"
        (DealStageID f);
      string_field "DealLostReasonID" "deal_lost_reason_id,omitempty"
        "deal_lost_reason_id" (DealLostReasonID f);
      string_field "DealPipelineID" "deal_pipeline_id,omitempty"
        "deal_pipeline_id" (DealPipelineID f);
      string_field "Organization" "organization,omitempty" "organization"
        (Organization f);
      string_field "Hold" "hold,omitempty" "hold" (Hold f);
      string_field "ProductPresence" "product_presence,omitempty"
        "product_presence" (ProductPresence f);
      string_field "NextPage" "next_page,omitempty" "next_page" (NextPage f) ].

End ListDealsFilterRequest.

Module ListContactsFilterRequest.

Record t : Type := {
  Token : string;
  Page : string;
  Limit : string;
  Order : string;
  Direction : string;
  Email : string;
  Q : string;
  Phone : string;
  Title : string
}.

Definition ValueOf (f : t) : Reflect.Value :=
  Reflect.VStruct
    [ string_field "Token" "token" "token" (Token f);
      string_field "Page" "page,omitempty" "page" (Page f);
      string_field "Limit" "limit,omitempty" "limit" (Limit f);
      string_field "Order" "order,omitempty" "order" (Order f);
      string_field "Direction" "direction,omitempty" "direction" (Direction f);
      string_field "Email" "email,omitempty" "email" (Email f);
      string_field "Q" "q,omitempty" "q" (Q f);
      string_field "Phone" "phone,omitempty" "phone" (Phone f);
      string_field "Title" "title,omitempty" "title" (Title f) ].

End ListContactsFilterRequest.

(** ** Packages [io], [encoding/json] and [net/http] *)

(** A response body: the bytes the stream delivers and the error that ends
    it, if it does not end at EOF. *)
Record ReadCloser : Type := { content : string; read_error : option error }.

(** [json.Marshal] and [json.NewDecoder(body).Decode(&v)] at a record
    type. *)
Class Json (A : Type) : Type := {
  Marshal : A -> result string;
  Decode : ReadCloser -> result A
}.

Definition StatusOK : Z := 200.
Definition StatusCreated : Z := 201.
Definition MethodGet : string := "GET".
Definition MethodPost : string := "POST".
Definition MethodPut : string := "PUT".

(** What the pipeline takes from outside [utils.go], [request] and the
    wrappers: the context type, the endpoint constants, the request and
    response records with their JSON encoding, and the check of the method
    and the URL by [http.NewRequestWithContext]. *)
Class World : Type := {
  Ctx : Type;
  listDealsEndpoint : string;
  createDealEndpoint : string;
  updateDealByIDEndpoint : string;
  listContactsEndpoint : string;
  createContactEndpoint : string;
  updateContactByIDEndpoint : string;
  ListDealsFilterResponse : Type;
  CreateDealRequest : Type;
  CreateDealResponse : Type;
  UpdateDealRequest : Type;
  UpdateDealResponse : Type;
  ListContactsFilterResponse : Type;
  CreateContactRequest : Type;
  CreateContactResponse : Type;
  UpdateContactRequest : Type;
  UpdateContactResponse : Type;
  ListDealsFilterResponse_json :: Json ListDealsFilterResponse;
  CreateDealRequest_json :: Json CreateDealRequest;
  CreateDealResponse_json :: Json CreateDealResponse;
  UpdateDealRequest_json :: Json UpdateDealRequest;
  UpdateDealResponse_json :: Json UpdateDealResponse;
  ListContactsFilterResponse_json :: Json ListContactsFilterResponse;
  CreateContactRequest_json :: Json CreateContactRequest;
  CreateContactResponse_json :: Json CreateContactResponse;
  UpdateContactRequest_json :: Json UpdateContactRequest;
  UpdateContactResponse_json :: Json UpdateContactResponse;
  NewRequest_error : string -> string -> option error
}.

Section Pipeline.

Context `{W : World}.

(** [http.Request] and [http.Response], as far as the code uses them. *)
Record Request : Type := {
  ReqCtx : Ctx;
  Method : string;
  URL : string;
  ReqBody : option string;
  Header : list (string * string)
}.

Record Response : Type := { StatusCode : Z; Body : ReadCloser }.

(** The client: its configuration and the transport [httpClient.Do]. *)
Record Client : Type := {
  baseUrl : string;
  token : string;
  httpClient : Request -> result Response
}.

(** What a call does to the outside, in order. *)
Inductive Event : Type :=
| EvMarshal
| EvDo (req : Request)
| EvReadAll
| EvDecode
| EvClose.

(** A computation that logs its events and returns [(x, nil)] or
    [(nil, err)]; an error ends it, as [if err != nil { return }] does. *)
Definition IO (A : Type) : Type := list Event * result A.

Definition ret {A} (x : A) : IO A := ([], Ok x).
Definition fail {A} (e : error) : IO A := ([], Err e).
Definition emit (ev : Event) : IO () := ([ev], Ok ()).

Definition bind {A B} (c : IO A) (k : A -> IO B) : IO B :=
  match c with
  | (tr, Ok x) => let '(tr', r) := k x in (tr ++ tr', r)
  | (tr, Err e) => (tr, Err e)
  end.

(** [x, err := c; if err != nil { return nil, h(err) }]. *)
Definition or_fail {A} (c : IO A) (h : error -> error) : IO A :=
  match c with
  | (tr, Ok x) => (tr, Ok x)
  | (tr, Err e) => (tr, Err (h e))
  end.

(** [defer ev]: the event happens when the rest has returned. *)
Definition defer {A} (ev : Event) (c : IO A) : IO A :=
  (c.1 ++ [ev], c.2).

Definition lift {A} (r : result A) : IO A := ([], r).

#[global] Instance IO_ret : MRet IO := @ret.
#[global] Instance IO_bind : MBind IO := fun A B k c => bind c k.

(** A value passed as [any] to [json.Marshal]; the nil interface is
    [None]. *)
Inductive any : Type :=
| interface {A : Type} `{Json A} (x : A).

Definition json_Marshal (v : any) : IO string :=
  _ ← emit EvMarshal;
  match v with
  | interface x => lift (Marshal x)
  end.

(** [http.NewRequestWithContext(ctx, method, url, body)]. *)
Definition NewRequestWithContext (ctx : Ctx) (method url : string)
    (body : option string) : IO Request :=
  match NewRequest_error method url with
  | Some err => fail err
  | None =>
      mret {| ReqCtx := ctx; Method := method; URL := url;
              ReqBody := body; Header := [] |}
  end.

(** [req.Header.Set(key, value)]. *)
Definition Header_Set (req : Request) (key value : string) : Request :=
  {| ReqCtx := ReqCtx req; Method := Method req; URL := URL req;
     ReqBody := ReqBody req;
     Header :=
       (key, value) ::
       List.filter (fun h => negb (String.eqb h.1 key)) (Header req) |}.

(** [s.httpClient.Do(req)]. *)
Definition Do (s : Client) (req : Request) : IO Response :=
  _ ← emit (EvDo req);
  lift (httpClient s req).

(** [fmt.Sprintf(format, args...)]. *)
Definition Sprintf (template : string) (args : list operand) : string :=
  (format template args).1.

(** The URL [request] builds for an endpoint. *)
Definition request_url (s : Client) (endpoint : string) : string :=
  let url := Sprintf "%s/%s" [OpStr (baseUrl s); OpStr endpoint] in
  let separator := if Strings.Contains url "?" then "&" else "?" in
  Sprintf "%s%stoken=%s" [OpStr url; OpStr separator; OpStr (token s)].

(** [request] of the client. *)
Definition request (s : Client) (ctx : Ctx) (reqBody : option any)
    (method endpoint : string) : IO Response :=
  bodyReader ←
    match reqBody with
    | Some body =>
        marshalledBody ← json_Marshal body;
        mret (Some marshalledBody)
    | None => mret None
    end;
  let url := request_url s endpoint in
  req ← NewRequestWithContext ctx method url bodyReader;
  let req := Header_Set req "Content-Type" "application/json" in
  Do s req.

(** [io.ReadAll(resp.Body)] and [json.NewDecoder(resp.Body).Decode]. *)
Definition ReadAll (body : ReadCloser) : IO string :=
  _ ← emit EvReadAll;
  match read_error body with
  | Some err => fail err
  | None => mret (content body)
  end.

Definition Decoder_Decode {A} `{Json A} (body : ReadCloser) : IO A :=
  _ ← emit EvDecode;
  lift (Decode body).

(** [errors.New]. *)
Definition errors_New (text : string) : error := ErrorString text.

(** [ListDealsFilter]. *)
Definition ListDealsFilter (s : Client) (ctx : Ctx)
    (filter : ListDealsFilterRequest.t) : IO ListDealsFilterResponse :=
  queryString ←
    or_fail (lift (StructToQueryString (ListDealsFilterRequest.ValueOf filter)))
      (fun err =>
         Errorf "error creating query string from filter: %w" [OpErr err]);
  let fullPath :=
    if negb (String.eqb queryString "")
    then listDealsEndpoint +:+ "?" +:+ queryString
    else listDealsEndpoint in
  resp ←
    or_fail (request s ctx None MethodGet fullPath)
      (fun err =>
         Errorf "%w: error making request to list deals: %w"
           [OpErr (Sentinel ErrRequestFailed); OpErr err]);
  defer EvClose
    (if negb (Z.eqb (StatusCode resp) StatusOK) then
       bodyBytes ←
         or_fail (ReadAll (Body resp))
           (fun readErr =>
              Errorf "%w: failed to list deals (status: %d), read response body error: %w"
                [OpErr (Sentinel ErrReadResponseBody);
                 OpInt (StatusCode resp); OpErr readErr]);
       let bodyErr := errors_New bodyBytes in
       fail (Errorf "%w: failed to list deals (status: %d): %w"
               [OpErr (Sentinel ErrApiReturnedError);
                OpInt (StatusCode resp); OpErr bodyErr])
     else
       responsePayload ←
         or_fail (Decoder_Decode (Body resp))
           (fun err =>
              Errorf "%w: error decoding list deals response: %w"
                [OpErr (Sentinel ErrDecodeResponse); OpErr err]);
       mret responsePayload).

(** [CreateDeal]. *)
Definition CreateDeal (s : Client) (ctx : Ctx) (deal : CreateDealRequest)
  : IO CreateDealResponse :=
  resp ←
    or_fail (request s ctx (Some (interface deal)) MethodPost createDealEndpoint)
      (fun err =>
         Errorf "%w: error making request to create deal: %w"
           [OpErr (Sentinel ErrRequestFailed); OpErr err]);
  defer EvClose
    (if negb (Z.eqb (StatusCode resp) StatusOK) &&
        negb (Z.eqb (StatusCode resp) StatusCreated) then
       bodyBytes ←
         or_fail (ReadAll (Body resp))
           (fun readErr =>
              Errorf "%w: failed to create deal (status: %d), read response body error: %w"
                [OpErr (Sentinel ErrReadResponseBody);
                 OpInt (StatusCode resp); OpErr readErr]);
       let bodyErr := errors_New bodyBytes in
       fail (Errorf "%w: failed to create deal (status: %d): %w"
               [OpErr (Sentinel ErrApiReturnedError);
                OpInt (StatusCode resp); OpErr bodyErr])
     else
       responsePayload ←
         or_fail (Decoder_Decode (Body resp))
           (fun err =>
              Errorf "%w: error decoding create deal response: %w"
                [OpErr (Sentinel ErrDecodeResponse); OpErr err]);
       mret responsePayload).

(** [UpdateDeal]. *)
Definition UpdateDeal (s : Client) (ctx : Ctx) (dealID : string)
    (deal : UpdateDealRequest) : IO UpdateDealResponse :=
  resp ←
    or_fail (request s ctx (Some (interface deal)) MethodPut
               (Sprintf updateDealByIDEndpoint [OpStr dealID]))
      (fun err =>
         Errorf "%w: error making request to update deal: %w"
           [OpErr (Sentinel ErrRequestFailed); OpErr err]);
  defer EvClose
    (if negb (Z.eqb (StatusCode resp) StatusOK) then
       bodyBytes ←
         or_fail (ReadAll (Body resp))
           (fun readErr =>
              Errorf "%w: failed to update deal (status: %d), read response body error: %w"
                [OpErr (Sentinel ErrReadResponseBody);
                 OpInt (StatusCode resp); OpErr readErr]);
       let bodyErr := errors_New bodyBytes in
       fail (Errorf "%w: failed to update deal (status: %d): %w"
               [OpErr (Sentinel ErrApiReturnedError);
                OpInt (StatusCode resp); OpErr bodyErr])
     else
       responsePayload ←
         or_fail (Decoder_Decode (Body resp))
           (fun err =>
              Errorf "%w: error decoding update deal response: %w"
                [OpErr (Sentinel ErrDecodeResponse); OpErr err]);
       mret responsePayload).

(** [ListContactsFilter]. *)
Definition ListContactsFilter (s : Client) (ctx : Ctx)
    (filter : ListContactsFilterRequest.t) : IO ListContactsFilterResponse :=
  queryString ←
    or_fail
      (lift (StructToQueryString (ListContactsFilterRequest.ValueOf filter)))
      (fun err =>
         Errorf "error creating query string from filter: %w" [OpErr err]);
  let fullPath :=
    if negb (String.eqb queryString "")
    then listContactsEndpoint +:+ "?" +:+ queryString
    else listContactsEndpoint in
  resp ←
    or_fail (request s ctx None MethodGet fullPath)
      (fun err =>
         Errorf "%w: error making request to list contacts: %w"
           [OpErr (Sentinel ErrRequestFailed); OpErr err]);
  defer EvClose
    (if negb (Z.eqb (StatusCode resp) StatusOK) then
       bodyBytes ←
         or_fail (ReadAll (Body resp))
           (fun readErr =>
              Errorf "%w: failed to list contacts (status: %d), read response body error: %w"
                [OpErr (Sentinel ErrReadResponseBody);
                 OpInt (StatusCode resp); OpErr readErr]);
       let bodyErr := errors_New bodyBytes in
       fail (Errorf "%w: failed to list contacts (status: %d): %w"
               [OpErr (Sentinel ErrApiReturnedError);
                OpInt (StatusCode resp); OpErr bodyErr])
     else
       responsePayload ←
         or_fail (Decoder_Decode (Body resp))
           (fun err =>
              Errorf "%w: error decoding list contacts response: %w"
                [OpErr (Sentinel ErrDecodeResponse); OpErr err]);
       mret responsePayload).

(** [CreateContact]. *)
Definition CreateContact (s : Client) (ctx : Ctx)
    (contact : CreateContactRequest) : IO CreateContactResponse :=
  resp ←
    or_fail (request s ctx (Some (interface contact)) MethodPost
               createContactEndpoint)
      (fun err =>
         Errorf "%w: error making request to create contact: %w"
           [OpErr (Sentinel ErrRequestFailed); OpErr err]);
  defer EvClose
    (if negb (Z.eqb (StatusCode resp) StatusOK) &&
        negb (Z.eqb (StatusCode resp) StatusCreated) then
       bodyBytes ←
         or_fail (ReadAll (Body resp))
           (fun readErr =>
              Errorf "%w: failed to create contact (status: %d), read response body error: %w"
                [OpErr (Sentinel ErrReadResponseBody);
                 OpInt (StatusCode resp); OpErr readErr]);
       let bodyErr := errors_New bodyBytes in
       fail (Errorf "%w: failed to create contact (status: %d): %w"
               [OpErr (Sentinel ErrApiReturnedError);
                OpInt (StatusCode resp); OpErr bodyErr])
     else
       responsePayload ←
         or_fail (Decoder_Decode (Body resp))
           (fun err =>
              Errorf "%w: error decoding create contact response: %w"
                [OpErr (Sentinel ErrDecodeResponse); OpErr err]);
       mret responsePayload).

(** [UpdateContact]. *)
Definition UpdateContact (s : Client) (ctx : Ctx) (contactID : string)
    (contact : UpdateContactRequest) : IO UpdateContactResponse :=
  resp ←
    or_fail (request s ctx (Some (interface contact)) MethodPut
               (Sprintf updateContactByIDEndpoint [OpStr contactID]))
      (fun err =>
         Errorf "%w: error making request to update contact: %w"
           [OpErr (Sentinel ErrRequestFailed); OpErr err]);
  defer EvClose
    (if negb (Z.eqb (StatusCode resp) StatusOK) then
       bodyBytes ←
         or_fail (ReadAll (Body resp))
           (fun readErr =>
              Errorf "%w: failed to update contact (status: %d), read response body error: %w"
                [OpErr (Sentinel ErrReadResponseBody);
                 OpInt (StatusCode resp); OpErr readErr]);
       let bodyErr := errors_New bodyBytes in
       fail (Errorf "%w: failed to update contact (status: %d): %w"
               [OpErr (Sentinel ErrApiReturnedError);
                OpInt (StatusCode resp); OpErr bodyErr])
     else
       responsePayload ←
         or_fail (Decoder_Decode (Body resp))
           (fun err =>
              Errorf "%w: error decoding update contact response: %w"
                [OpErr (Sentinel ErrDecodeResponse); OpErr err]);
       mret responsePayload).

End Pipeline.

(** ** Package [encoding/json]: the decoder

    [json.NewDecoder(r).Decode(&v)] reads the next JSON value of the
    stream, and no further, and stores it in [v].  The scanner below
    follows the grammar of RFC 8259 as the scanner of the package does;
    the text of a syntax error is not modelled, and bytes that are not
    valid UTF-8 are kept as they are. *)

Module EncodingJson.

Local Unset Elimination Schemes.
Inductive value : Type :=
| Null
| Bool (b : bool)
| Number (literal : string)
| Str (s : string)
| Array (elems : list value)
| Object (members : list (string * value)).
Local Set Elimination Schemes.

(** What reading a prefix of the input gives: what was read and the input
  left, an input that is not JSON, or an input that ends too early. *)
Inductive scan (A : Type) : Type :=
| Read (x : A) (rest : string)
| Invalid
| Truncated.
Arguments Read {A} x rest.
Arguments Invalid {A}.
Arguments Truncated {A}.

Definition scan_map {A B} (f : A -> B) (r : scan A) : scan B :=
match r with
| Read x rest => Read (f x) rest
| Invalid => Invalid
| Truncated => Truncated
end.

Definition quote : ascii := "034"%char.
Definition backslash : ascii := "092"%char.

Definition isSpace (c : ascii) : bool :=
let n := N_of_ascii c in
((n =? 32) || (n =? 9) || (n =? 10) || (n =? 13))%N.

Definition isDigit (c : ascii) : bool :=
let n := N_of_ascii c in ((48 <=? n) && (n <=? 57))%N.

Definition isHex (c : ascii) : bool :=
let n := N_of_ascii c in
((48 <=? n) && (n <=? 57) || (97 <=? n) && (n <=? 102) ||
 (65 <=? n) && (n <=? 70))%N.

Definition isEscape (c : ascii) : bool :=
Ascii.eqb c quote || Ascii.eqb c backslash || Ascii.eqb c "/" ||
Ascii.eqb c "b" || Ascii.eqb c "f" || Ascii.eqb c "n" ||
Ascii.eqb c "r" || Ascii.eqb c "t".

Fixpoint skip_space (s : string) : string :=
match s with
| String c rest => if isSpace c then skip_space rest else s
| EmptyString => s
end.

Fixpoint only_space (s : string) : bool :=
match s with
| String c rest => isSpace c && only_space rest
| EmptyString => true
end.

(** The longest prefix of digits and what follows it. *)
Fixpoint digits (s : string) : string * string :=
match s with
| String c rest =>
    if isDigit c then let '(ds, rest') := digits rest in (String c ds, rest')
    else (EmptyString, s)
| EmptyString => (EmptyString, s)
end.

(** One digit at least: [Truncated] at the end of the input, [Invalid]
  before another byte. *)
Definition digits1 (s : string) : scan string :=
match s with
| EmptyString => Truncated
| String c _ =>
    if isDigit c then let '(ds, rest) := digits s in Read ds rest
    else Invalid
end.

(** The integer part: a minus sign if any, then [0] or a digit from 1 to
  9 and the digits after it. *)
Definition read_int (s : string) : scan string :=
let '(sign, s1) :=
  match s with
  | String c rest => if Ascii.eqb c "-" then ("-", rest) else ("", s)
  | EmptyString => ("", s)
  end in
match s1 with
| EmptyString => Truncated
| String c rest =>
    if Ascii.eqb c "0" then Read (sign +:+ "0") rest
    else scan_map (fun ds => sign +:+ ds) (digits1 s1)
end.

(** The fraction, if any: a point and one digit at least. *)
Definition read_frac (s : string) : scan string :=
match s with
| String c rest =>
    if Ascii.eqb c "." then scan_map (fun ds => "." +:+ ds) (digits1 rest)
    else Read "" s
| EmptyString => Read "" s
end.

(** The exponent, if any: [e] or [E], a sign if any, one digit at
  least. *)
Definition read_exp (s : string) : scan string :=
match s with
| String c rest =>
    if Ascii.eqb c "e" || Ascii.eqb c "E" then
      match rest with
      | String d rest' =>
          if Ascii.eqb d "+" || Ascii.eqb d "-"
          then scan_map (fun ds => String c (String d ds)) (digits1 rest')
          else scan_map (fun ds => String c ds) (digits1 rest)
      | EmptyString => Truncated
      end
    else Read "" s
| EmptyString => Read "" s
end.

Definition read_number (s : string) : scan string :=
match read_int s with
| Read i s1 =>
    match read_frac s1 with
    | Read f s2 => scan_map (fun e => i +:+ f +:+ e) (read_exp s2)
    | Invalid => Invalid
    | Truncated => Truncated
    end
| Invalid => Invalid
| Truncated => Truncated
end.

(** The rest of a literal name after its first byte. *)
Fixpoint read_name (name : string) (s : string) : scan unit :=
match name, s with
| EmptyString, _ => Read tt s
| String _ _, EmptyString => Truncated
| String c name', String d rest =>
    if Ascii.eqb c d then read_name name' rest else Invalid
end.

(** The text of a string literal after its opening quote, up to the
  closing quote, escapes as written. *)
Fixpoint read_string (s : string) : scan string :=
match s with
| EmptyString => Truncated
| String c rest =>
    if Ascii.eqb c quote then Read "" rest
    else if Ascii.eqb c backslash then
      match rest with
      | EmptyString => Truncated
      | String e rest1 =>
          if isEscape e then
            scan_map (fun t => String c (String e t)) (read_string rest1)
          else if Ascii.eqb e "u" then
            match rest1 with
            | String h1 (String h2 (String h3 (String h4 rest5))) =>
                if isHex h1 && isHex h2 && isHex h3 && isHex h4 then
                  scan_map
                    (fun t =>
                       String c (String e (String h1 (String h2
                         (String h3 (String h4 t))))))
                    (read_string rest5)
                else Invalid
            | _ =>
                if Strings.all isHex rest1 then Truncated else Invalid
            end
          else Invalid
      end
    else if (N_of_ascii c <? 32)%N then Invalid
    else scan_map (String c) (read_string rest)
end.

(** *** The text a string literal stands for *)

Definition hex_value (c : ascii) : N :=
let n := N_of_ascii c in
(if n <=? 57 then n - 48 else if n <=? 70 then n - 55 else n - 87)%N.

Definition hex4 (s : string) : N :=
match s with
| String h1 (String h2 (String h3 (String h4 _))) =>
    (hex_value h1 * 4096 + hex_value h2 * 256 + hex_value h3 * 16 +
     hex_value h4)%N
| _ => 0%N
end.

Definition drop4 (s : string) : string :=
match s with
| String _ (String _ (String _ (String _ rest))) => rest
| _ => EmptyString
end.

Definition byte (n : N) : ascii := ascii_of_N n.

(** The UTF-8 encoding of a code point. *)
Definition utf8 (r : N) : string :=
(if r <? 128 then String (byte r) ""
 else if r <? 2048 then
   String (byte (192 + r / 64)) (String (byte (128 + r mod 64)) "")
 else if r <? 65536 then
   String (byte (224 + r / 4096))
     (String (byte (128 + (r / 64) mod 64))
        (String (byte (128 + r mod 64)) ""))
 else
   String (byte (240 + r / 262144))
     (String (byte (128 + (r / 4096) mod 64))
        (String (byte (128 + (r / 64) mod 64))
           (String (byte (128 + r mod 64)) ""))))%N.

Definition replacement : N := 65533.
Definition is_surrogate (r : N) : bool := ((55296 <=? r) && (r <? 57344))%N.
Definition is_high (r : N) : bool := ((55296 <=? r) && (r <? 56320))%N.
Definition is_low (r : N) : bool := ((56320 <=? r) && (r <? 57344))%N.

Definition escaped (e : ascii) : ascii :=
if Ascii.eqb e "b" then "008"%char
else if Ascii.eqb e "f" then "012"%char
else if Ascii.eqb e "n" then "010"%char
else if Ascii.eqb e "r" then "013"%char
else if Ascii.eqb e "t" then "009"%char
else e.

(** [unquote]: escapes replaced by what they stand for; a pair of
  surrogates is one code point, a lone one the replacement character. *)
Fixpoint unquote_fuel (fuel : nat) (raw : string) : string :=
match fuel with
| O => EmptyString
| S n =>
    match raw with
    | EmptyString => EmptyString
    | String c rest =>
        if Ascii.eqb c backslash then
          match rest with
          | EmptyString => EmptyString
          | String e rest1 =>
              if Ascii.eqb e "u" then
                let r := hex4 rest1 in
                let rest5 := drop4 rest1 in
                if is_surrogate r then
                  match rest5 with
                  | String b (String u rest7) =>
                      let r2 := hex4 rest7 in
                      if is_high r && Ascii.eqb b backslash &&
                         Ascii.eqb u "u" && is_low r2
                      then
                        utf8 (65536 + (r - 55296) * 1024 + (r2 - 56320))%N
                        +:+ unquote_fuel n (drop4 rest7)
                      else utf8 replacement +:+ unquote_fuel n rest5
                  | _ => utf8 replacement +:+ unquote_fuel n rest5
                  end
                else utf8 r +:+ unquote_fuel n rest5
              else String (escaped e) (unquote_fuel n rest1)
          end
        else String c (unquote_fuel n rest)
    end
end.

Definition unquote (raw : string) : string :=
unquote_fuel (String.length raw) raw.

(** *** The next value of the input *)

Fixpoint read_value (fuel : nat) (s : string) {struct fuel} : scan value :=
match fuel with
| O => Invalid
| S n =>
    match skip_space s with
    | EmptyString => Truncated
    | String c rest =>
        if Ascii.eqb c "{" then
          match skip_space rest with
          | EmptyString => Truncated
          | String c' rest' =>
              if Ascii.eqb c' "}" then Read (Object []) rest'
              else read_members n rest []
          end
        else if Ascii.eqb c "[" then
          match skip_space rest with
          | EmptyString => Truncated
          | String c' rest' =>
              if Ascii.eqb c' "]" then Read (Array []) rest'
              else read_elements n rest []
          end
        else if Ascii.eqb c quote then
          scan_map (fun raw => Str (unquote raw)) (read_string rest)
        else if Ascii.eqb c "-" || isDigit c then
          scan_map Number (read_number (String c rest))
        else if Ascii.eqb c "t" then
          scan_map (fun _ => Bool true) (read_name "rue" rest)
        else if Ascii.eqb c "f" then
          scan_map (fun _ => Bool false) (read_name "alse" rest)
        else if Ascii.eqb c "n" then
          scan_map (fun _ => Null) (read_name "ull" rest)
        else Invalid
    end
end
with read_elements (fuel : nat) (s : string) (acc : list value)
  {struct fuel} : scan value :=
match fuel with
| O => Invalid
| S n =>
    match read_value n s with
    | Read v rest =>
        match skip_space rest with
        | EmptyString => Truncated
        | String c rest' =>
            if Ascii.eqb c "," then read_elements n rest' (v :: acc)
            else if Ascii.eqb c "]" then Read (Array (rev (v :: acc))) rest'
            else Invalid
        end
    | Invalid => Invalid
    | Truncated => Truncated
    end
end
with read_members (fuel : nat) (s : string) (acc : list (string * value))
  {struct fuel} : scan value :=
match fuel with
| O => Invalid
| S n =>
    match skip_space s with
    | EmptyString => Truncated
    | String c rest =>
        if Ascii.eqb c quote then
          match read_string rest with
          | Read raw rest1 =>
              match skip_space rest1 with
              | EmptyString => Truncated
              | String c1 rest2 =>
                  if Ascii.eqb c1 ":" then
                    match read_value n rest2 with
                    | Read v rest3 =>
                        match skip_space rest3 with
                        | EmptyString => Truncated
                        | String c3 rest4 =>
                            if Ascii.eqb c3 "," then
                              read_members n rest4
                                ((unquote raw, v) :: acc)
                            else if Ascii.eqb c3 "}" then
                              Read (Object (rev ((unquote raw, v) :: acc)))
                                rest4
                            else Invalid
                        end
                    | Invalid => Invalid
                    | Truncated => Truncated
                    end
                  else Invalid
              end
          | Invalid => Invalid
          | Truncated => Truncated
          end
        else Invalid
    end
end.

(** Every call reads a byte at least, and every value and every element
  or member takes one call. *)
Definition read (s : string) : scan value :=
read_value (2 * String.length s + 2) s.

(** [json.Valid]: the text is one JSON value, with white space around
  it at most. *)
Definition Valid (s : string) : bool :=
match read s with
| Read _ rest => only_space rest
| _ => false
end.

(** A [json.SyntaxError], [io.EOF] and [io.ErrUnexpectedEOF]. *)
Definition SyntaxError : error := ErrorString "invalid character".
Definition EOF : error := ErrorString "EOF".
Definition ErrUnexpectedEOF : error := ErrorString "unexpected EOF".

(** The end of a string, a number or a name shows only at the next byte;
  an object and an array end at their closing byte. *)
Definition ends_at_next_byte (v : value) : bool :=
match v with
| Array _ | Object _ => false
| _ => true
end.

(** The value [Decode] reads from the stream: the first value; what
  follows it is left in the buffer of the decoder, unread. *)
Definition next_value (body : ReadCloser) : result value :=
match read (content body) with
| Read v rest =>
    match rest, read_error body with
    | EmptyString, Some err => if ends_at_next_byte v then Err err else Ok v
    | _, _ => Ok v
    end
| Invalid => Err SyntaxError
| Truncated =>
    match read_error body with
    | Some err => Err err
    | None =>
        if only_space (content body) then Err EOF else Err ErrUnexpectedEOF
    end
end.

(** *** Storing a value in a [ListDealsFilterResponse]

  The record of lines 128 to 133 of the deals file.  A deal is kept as
  the JSON value it was read from: the fields of [Deal] are not
  modelled. *)
Record ListDealsFilterResponse : Type := {
Deals : list value;
HasMore : bool;
NextPage : string;
Total : Z
}.

Definition zero_value : ListDealsFilterResponse :=
{| Deals := []; HasMore := false; NextPage := ""; Total := 0 |}.

Definition kind_name (v : value) : string :=
match v with
| Null => "null"
| Bool _ => "bool"
| Number _ => "number"
| Str _ => "string"
| Array _ => "array"
| Object _ => "object"
end.

(** A [json.UnmarshalTypeError]; for a number that is no [int] the text
  has the literal too. *)
Definition UnmarshalTypeError (v : value) (field type : string) : error :=
ErrorString ("json: cannot unmarshal " +:+
             match v with
             | Number literal => "number " +:+ literal
             | _ => kind_name v
             end +:+
             " into Go struct field ListDealsFilterResponse." +:+ field
             +:+ " of type " +:+ type).

Definition lower (c : ascii) : ascii :=
let n := N_of_ascii c in
if ((65 <=? n) && (n <=? 90))%N then ascii_of_N (n + 32) else c.

Fixpoint fold_case (s : string) : string :=
match s with
| String c rest => String (lower c) (fold_case rest)
| EmptyString => EmptyString
end.

(** The field a key names: the one of that name, upper and lower case
  letters taken as the same (of [strings.EqualFold], the folding of the
  letters of ASCII only). *)
Definition names (key name : string) : bool :=
String.eqb (fold_case key) name.

(** The first error is the one [Decode] returns. *)
Definition save_error (saved : option error) (err : error) : option error :=
match saved with
| Some _ => saved
| None => Some err
end.

Definition is_deal (v : value) : bool :=
match v with
| Null | Object _ => true
| _ => false
end.

Definition in_int64 (i : Z) : bool :=
(-9223372036854775808 <=? i) && (i <=? 9223372036854775807).

(** One member of the object: a key that names no field is skipped,
  [null] leaves a field as it is, and a value of the wrong kind leaves
  the field and is an error. *)
Definition store (st : ListDealsFilterResponse * option error)
  (m : string * value) : ListDealsFilterResponse * option error :=
let '(r, saved) := st in
let '(key, v) := m in
if names key "deals" then
  match v with
  | Null =>
      ({| Deals := []; HasMore := HasMore r; NextPage := NextPage r;
          Total := Total r |}, saved)
  | Array elems =>
      ({| Deals := elems; HasMore := HasMore r; NextPage := NextPage r;
          Total := Total r |},
       match List.filter (fun e => negb (is_deal e)) elems with
       | e :: _ =>
           save_error saved (UnmarshalTypeError e "deals" "rd_station.Deal")
       | [] => saved
       end)
  | _ =>
      (r, save_error saved
            (UnmarshalTypeError v "deals" "[]rd_station.Deal"))
  end
else if names key "has_more" then
  match v with
  | Null => (r, saved)
  | Bool b =>
      ({| Deals := Deals r; HasMore := b; NextPage := NextPage r;
          Total := Total r |}, saved)
  | _ => (r, save_error saved (UnmarshalTypeError v "has_more" "bool"))
  end
else if names key "next_page" then
  match v with
  | Null => (r, saved)
  | Str text =>
      ({| Deals := Deals r; HasMore := HasMore r; NextPage := text;
          Total := Total r |}, saved)
  | _ => (r, save_error saved (UnmarshalTypeError v "next_page" "string"))
  end
else if names key "total" then
  match v with
  | Null => (r, saved)
  | Number literal =>
      match Strconv.ParseInt literal with
      | Some i =>
          if in_int64 i then
            ({| Deals := Deals r; HasMore := HasMore r;
                NextPage := NextPage r; Total := i |}, saved)
          else (r, save_error saved (UnmarshalTypeError v "total" "int"))
      | None => (r, save_error saved (UnmarshalTypeError v "total" "int"))
      end
  | _ => (r, save_error saved (UnmarshalTypeError v "total" "int"))
  end
else (r, saved).

Definition unmarshal (v : value) : result ListDealsFilterResponse :=
match v with
| Null => Ok zero_value
| Object members =>
    match foldl store (zero_value, None) members with
    | (r, None) => Ok r
    | (_, Some err) => Err err
    end
| _ =>
    Err (ErrorString
           ("json: cannot unmarshal " +:+ kind_name v +:+
            " into Go value of type rd_station.ListDealsFilterResponse"))
end.

(** [json.NewDecoder(body).Decode(&responsePayload)] for a
  [responsePayload] of type [ListDealsFilterResponse]. *)
Definition Decode (body : ReadCloser) : result ListDealsFilterResponse :=
match next_value body with
| Ok v => unmarshal v
| Err err => Err err
end.

(** The text is valid JSON for a [ListDealsFilterResponse]. *)
Definition ValidFor (s : string) : bool :=
match read s with
| Read v rest =>
    only_space rest &&
    match unmarshal v with Ok _ => true | Err _ => false end
| _ => false
end.

End EncodingJson.

(** * Vocabulary of the statements *)

(** A byte different from [sep]. *)
Definition isnt (sep : ascii) (c : ascii) : bool := negb (Ascii.eqb c sep).

(** The bytes that are not a separator of a query string. *)
Definition plain (c : ascii) : bool :=
  isnt "&" c && isnt "=" c && isnt ";" c.

(** One [key=value] component of an encoded query. *)
Definition component (p : string * string) : string :=
  Url.QueryEscape p.1 +:+ "=" +:+ Url.QueryEscape p.2.

(** The map a sequence of [Add] calls builds. *)
Definition add_pair (m : gmap string (list string)) (p : string * string)
  : gmap string (list string) :=
  Url.Add m p.1 p.2.

Definition from_pairs (ps : list (string * string))
  : gmap string (list string) :=
  foldl add_pair ∅ ps.

(** No key is bound to the empty list: true of every map built by [Add]. *)
Definition populated (m : gmap string (list string)) : Prop :=
  ∀ k, m !! k ≠ Some [].

(** The pairs an entry list stands for. *)
Definition flatten (es : list (string * list string))
  : list (string * string) :=
  es ≫= (fun e => pair e.1 <$> e.2).

(** The values a pair list gives to the key [k], in order. *)
Definition values_of (k : string) (ps : list (string * string))
  : list string :=
  (filter (fun p => p.1 = k) ps).*2.

(** The values the loop body of [StructToQueryString] adds for one field. *)
Definition contribution (f : Reflect.StructField * Reflect.Value)
  : list string :=
  default [] (add_field ∅ f !! param_name f.1).

(** The values the fields of a struct add under the name [k]. *)
Definition values_under (fields : list (Reflect.StructField * Reflect.Value))
    (k : string) : list string :=
  fields ≫=
    (fun f => if decide (param_name f.1 = k) then contribution f else []).

(** All the pairs the loop adds, in the order of the fields. *)
Definition struct_pairs (fields : list (Reflect.StructField * Reflect.Value))
  : list (string * string) :=
  fields ≫= (fun f => pair (param_name f.1) <$> contribution f).

(** The [query] tag of a field, empty when the field has none. *)
Definition query_tag (ft : Reflect.StructField) : string :=
  Reflect.Get (Reflect.Tag ft) "query".

(** The parameter name as the specification words it: the tag when it is
    present and is neither empty nor the ignore marker, the declared name
    otherwise. *)
Definition name_by_tag (ft : Reflect.StructField) : string :=
  if decide (query_tag ft ≠ "" ∧ query_tag ft ≠ "-") then query_tag ft
  else Reflect.Name ft.

(** A value at its zero value, for the four kinds the encoder reads; a
    value of another kind is not constrained. *)
Definition at_zero_value (v : Reflect.Value) : Prop :=
  match v with
  | Reflect.VString s => s = ""
  | Reflect.VInt _ i => i = 0
  | Reflect.VBool b => b = false
  | Reflect.VSlice elems => elems = []
  | _ => True
  end.

(** The kinds the loop of [StructToQueryString] has a case for. *)
Definition encoded_kinds : list Reflect.Kind :=
  [Reflect.String; Reflect.Int; Reflect.Int8; Reflect.Int16; Reflect.Int32;
   Reflect.Int64; Reflect.Bool; Reflect.Slice].

Section PipelineVocabulary.

Context `{W : World}.

(** The request [request] hands to the transport. *)
Definition outgoing (s : Client) (ctx : Ctx) (method endpoint : string)
    (body : option string) : Request :=
  {| ReqCtx := ctx; Method := method; URL := request_url s endpoint;
     ReqBody := body;
     Header := [("Content-Type", "application/json")] |}.

(** What the six wrappers do with a response, up to the wording of
    their three errors. *)
Definition respond {A} `{Json A} (rejected : Z -> bool)
    (on_read on_status : Z -> error -> error) (on_decode : error -> error)
    (resp : Response) : IO A :=
  defer EvClose
    (if rejected (StatusCode resp) then
       bodyBytes ←
         or_fail (ReadAll (Body resp)) (on_read (StatusCode resp));
       fail (on_status (StatusCode resp) (errors_New bodyBytes))
     else
       responsePayload ← or_fail (Decoder_Decode (Body resp)) on_decode;
       mret responsePayload).

(** The shape of a wrapper: [request], then [respond]. *)
Definition call {A} `{Json A} (s : Client) (ctx : Ctx)
    (reqBody : option any) (method endpoint : string)
    (on_request : error -> error) (rejected : Z -> bool)
    (on_read on_status : Z -> error -> error) (on_decode : error -> error)
  : IO A :=
  resp ← or_fail (request s ctx reqBody method endpoint) on_request;
  respond rejected on_read on_status on_decode resp.

(** The four errors of a wrapper; [what] is "list deals", "create deal",
    and so on. *)
Definition on_request (what : string) (err : error) : error :=
  Errorf ("%w: error making request to " +:+ what +:+ ": %w")
    [OpErr (Sentinel ErrRequestFailed); OpErr err].

Definition on_read (what : string) (status : Z) (readErr : error) : error :=
  Errorf ("%w: failed to " +:+ what +:+
          " (status: %d), read response body error: %w")
    [OpErr (Sentinel ErrReadResponseBody); OpInt status; OpErr readErr].

Definition on_status (what : string) (status : Z) (bodyErr : error)
  : error :=
  Errorf ("%w: failed to " +:+ what +:+ " (status: %d): %w")
    [OpErr (Sentinel ErrApiReturnedError); OpInt status; OpErr bodyErr].

Definition on_decode (what : string) (err : error) : error :=
  Errorf ("%w: error decoding " +:+ what +:+ " response: %w")
    [OpErr (Sentinel ErrDecodeResponse); OpErr err].

(** The two status tests of the wrappers. *)
Definition not_ok (status : Z) : bool := negb (Z.eqb status StatusOK).
Definition not_ok_nor_created (status : Z) : bool :=
  negb (Z.eqb status StatusOK) && negb (Z.eqb status StatusCreated).

(** A wrapper: [call] with the errors worded for [what]. *)
Definition wrapper {A} `{Json A} (what : string) (rejected : Z -> bool)
    (s : Client) (ctx : Ctx) (reqBody : option any)
    (method endpoint : string) : IO A :=
  call s ctx reqBody method endpoint (on_request what) rejected
    (on_read what) (on_status what) (on_decode what).

(** The endpoint of a listing call with its query string. *)
Definition with_query (endpoint queryString : string) : string :=
  if negb (String.eqb queryString "") then endpoint +:+ "?" +:+ queryString
  else endpoint.

(** A result that is an error of the class [class]: the error
    [fmt.Errorf] builds from the error variable of the class and the
    cause, with the given text; [errors.Is] finds in it the class and the
    cause. *)
Definition classified {A} (r : result A) (class : sentinel) (text : string)
    (cause : error) : Prop :=
  ∃ e, r = Err e ∧
       e = WrapErrors text [Sentinel class; cause] ∧
       Is e (Sentinel class) = true ∧ Is e cause = true.

(** The outcome of a call the API rejected with the response [resp]:
    no decoding, and an error of the class [ErrApiReturnedError] with the
    status and the body, or of the class [ErrReadResponseBody] when the
    body cannot be read. *)
Definition api_rejected {A} (r : IO A) (what : string) (resp : Response)
  : Prop :=
  ¬ (EvDecode ∈ r.1) ∧
  (match read_error (Body resp) with
   | None =>
       classified r.2 ErrApiReturnedError
         (sentinel_text ErrApiReturnedError +:+ ": failed to " +:+
          what +:+ " (status: " +:+
          Strconv.FormatInt (StatusCode resp) +:+ "): " +:+
          content (Body resp))
         (ErrorString (content (Body resp)))
   | Some readErr =>
       classified r.2 ErrReadResponseBody
         (sentinel_text ErrReadResponseBody +:+ ": failed to " +:+
          what +:+ " (status: " +:+
          Strconv.FormatInt (StatusCode resp) +:+
          "), read response body error: " +:+ Error readErr)
         readErr
   end).

(** The outcome of a call whose response body did not decode: an error
    of the class [ErrDecodeResponse] that wraps the cause, and no
    payload. *)
Definition decode_failed {A} (r : IO A) (what : string) (cause : error)
  : Prop :=
  classified r.2 ErrDecodeResponse
    (sentinel_text ErrDecodeResponse +:+ ": error decoding " +:+
     what +:+ " response: " +:+ Error cause)
    cause ∧
  ∀ payload, r.2 ≠ Ok payload.

(** The outcome of a call that failed before a response arrived: an
    error of the class [ErrRequestFailed] that wraps the cause. *)
Definition request_failed {A} (r : IO A) (what : string) (cause : error)
  : Prop :=
  classified r.2 ErrRequestFailed
    (sentinel_text ErrRequestFailed +:+ ": error making request to " +:+
     what +:+ ": " +:+ Error cause)
    cause.

Definition is_ok {A} (r : result A) : bool :=
  match r with Ok _ => true | Err _ => false end.

End PipelineVocabulary.

(** ** A small world to run the code in *)

(** A JSON codec on strings: the empty string does not marshal, and a body
    decodes when it starts with an opening brace. *)
Definition sample_json : Json string :=
  {| Marshal := fun x =>
       if String.eqb x "" then Err (ErrorString "json: unsupported value")
       else Ok ("{" +:+ x +:+ "}");
     Decode := fun body =>
       match read_error body with
       | Some err => Err err
       | None =>
           if String.prefix "{" (content body) then Ok (content body)
           else Err (ErrorString "invalid character")
       end |}.

Definition sample_world : World :=
  {| Ctx := unit;
     listDealsEndpoint := "deals";
     createDealEndpoint := "deals";
     updateDealByIDEndpoint := "deals/%s";
     listContactsEndpoint := "contacts";
     createContactEndpoint := "contacts";
     updateContactByIDEndpoint := "contacts/%s";
     ListDealsFilterResponse := string;
     CreateDealRequest := string;
     CreateDealResponse := string;
     UpdateDealRequest := string;
     UpdateDealResponse := string;
     ListContactsFilterResponse := string;
     CreateContactRequest := string;
     CreateContactResponse := string;
     UpdateContactRequest := string;
     UpdateContactResponse := string;
     ListDealsFilterResponse_json := sample_json;
     CreateDealRequest_json := sample_json;
     CreateDealResponse_json := sample_json;
     UpdateDealRequest_json := sample_json;
     UpdateDealResponse_json := sample_json;
     ListContactsFilterResponse_json := sample_json;
     CreateContactRequest_json := sample_json;
     CreateContactResponse_json := sample_json;
     UpdateContactRequest_json := sample_json;
     UpdateContactResponse_json := sample_json;
     NewRequest_error := fun _ _ => None |}.

(** A response with the given status and body. *)
Definition sample_response (status : Z) (body : ReadCloser) : Response :=
  {| StatusCode := status; Body := body |}.

(** A client whose transport answers every request with [answer]. *)
Definition sample_client (base : string)
    (answer : result Response) : @Client sample_world :=
  {| baseUrl := base; token := "T0K"; httpClient := fun _ => answer |}.

Definition sample_base : string := "https://crm.example/api/v1".

Definition readable (text : string) : ReadCloser :=
  {| content := text; read_error := None |}.

Definition broken (text : string) : ReadCloser :=
  {| content := text; read_error := Some (ErrorString "unexpected EOF") |}.

Definition sample_deals_filter : ListDealsFilterRequest.t :=
  {| ListDealsFilterRequest.Token := "ftok";
     ListDealsFilterRequest.Page := "1";
     ListDealsFilterRequest.Limit := "5";
     ListDealsFilterRequest.Order := "name";
     ListDealsFilterRequest.Direction := "asc";
     ListDealsFilterRequest.Name := "";
     ListDealsFilterRequest.ExactName := "";
     ListDealsFilterRequest.Win := "";
     ListDealsFilterRequest.UserID := "";
     ListDealsFilterRequest.ClosedAt := "";
     ListDealsFilterRequest.ClosedAtPeriod := "";
     ListDealsFilterRequest.CreatedAtPeriod := "";
     ListDealsFilterRequest.PredictionDatePeriod := "";
     ListDealsFilterRequest.StartDate := "";
     ListDealsFilterRequest.EndDate := "";
     ListDealsFilterRequest.CampaignID := "";
     ListDealsFilterRequest.DealStageID := "";
     ListDealsFilterRequest.DealLostReasonID := "";
     ListDealsFilterRequest.DealPipelineID := "";
     ListDealsFilterRequest.Organization := "";
     ListDealsFilterRequest.Hold := "";
     ListDealsFilterRequest.ProductPresence := "";
     ListDealsFilterRequest.NextPage := "" |}.

Definition sample_contacts_filter : ListContactsFilterRequest.t :=
  {| ListContactsFilterRequest.Token := "ftok";
     ListContactsFilterRequest.Page := "1";
     ListContactsFilterRequest.Limit := "5";
     ListContactsFilterRequest.Order := "";
     ListContactsFilterRequest.Direction := "";
     ListContactsFilterRequest.Email := "";
     ListContactsFilterRequest.Q := "";
     ListContactsFilterRequest.Phone := "";
     ListContactsFilterRequest.Title := "" |}.

(** ** The calls of the package *)

Section CallVocabulary.

Context `{W : World}.

(** A call of one of the six wrappers, with its arguments. *)
Inductive Call : Type :=
| CallListDealsFilter (filter : ListDealsFilterRequest.t)
| CallCreateDeal (deal : CreateDealRequest)
| CallUpdateDeal (dealID : string) (deal : UpdateDealRequest)
| CallListContactsFilter (filter : ListContactsFilterRequest.t)
| CallCreateContact (contact : CreateContactRequest)
| CallUpdateContact (contactID : string) (contact : UpdateContactRequest).

(** The record the call decodes the response into. *)
Definition call_payload (c : Call) : Type :=
  match c with
  | CallListDealsFilter _ => ListDealsFilterResponse
  | CallCreateDeal _ => CreateDealResponse
  | CallUpdateDeal _ _ => UpdateDealResponse
  | CallListContactsFilter _ => ListContactsFilterResponse
  | CallCreateContact _ => CreateContactResponse
  | CallUpdateContact _ _ => UpdateContactResponse
  end.

Definition call_json (c : Call) : Json (call_payload c) :=
  match c with
  | CallListDealsFilter _ => ListDealsFilterResponse_json
  | CallCreateDeal _ => CreateDealResponse_json
  | CallUpdateDeal _ _ => UpdateDealResponse_json
  | CallListContactsFilter _ => ListContactsFilterResponse_json
  | CallCreateContact _ => CreateContactResponse_json
  | CallUpdateContact _ _ => UpdateContactResponse_json
  end.

(** The wrapper applied to its arguments. *)
Definition run_call (s : Client) (ctx : Ctx) (c : Call)
  : IO (call_payload c) :=
  match c with
  | CallListDealsFilter filter => ListDealsFilter s ctx filter
  | CallCreateDeal deal => CreateDeal s ctx deal
  | CallUpdateDeal dealID deal => UpdateDeal s ctx dealID deal
  | CallListContactsFilter filter => ListContactsFilter s ctx filter
  | CallCreateContact contact => CreateContact s ctx contact
  | CallUpdateContact contactID contact =>
      UpdateContact s ctx contactID contact
  end.

(** The words of the call in its error texts. *)
Definition call_what (c : Call) : string :=
  match c with
  | CallListDealsFilter _ => "list deals"
  | CallCreateDeal _ => "create deal"
  | CallUpdateDeal _ _ => "update deal"
  | CallListContactsFilter _ => "list contacts"
  | CallCreateContact _ => "create contact"
  | CallUpdateContact _ _ => "update contact"
  end.

(** The statuses the call accepts: 200, and 201 for a creation. *)
Definition call_accepts (c : Call) (status : Z) : bool :=
  match c with
  | CallCreateDeal _ | CallCreateContact _ =>
      Z.eqb status StatusOK || Z.eqb status StatusCreated
  | _ => Z.eqb status StatusOK
  end.

(** The status test of the wrapper of the call. *)
Definition call_rejected (c : Call) : Z -> bool :=
  match c with
  | CallCreateDeal _ | CallCreateContact _ => not_ok_nor_created
  | _ => not_ok
  end.

(** The method, the endpoint and the body the call gives to [request]. *)
Definition call_method (c : Call) : string :=
  match c with
  | CallListDealsFilter _ | CallListContactsFilter _ => MethodGet
  | CallCreateDeal _ | CallCreateContact _ => MethodPost
  | CallUpdateDeal _ _ | CallUpdateContact _ _ => MethodPut
  end.

Definition call_endpoint (c : Call) : string :=
  match c with
  | CallListDealsFilter filter =>
      with_query listDealsEndpoint
        (Url.Encode
           (query_params
              (Reflect.Fields (ListDealsFilterRequest.ValueOf filter))))
  | CallCreateDeal _ => createDealEndpoint
  | CallUpdateDeal dealID _ => Sprintf updateDealByIDEndpoint [OpStr dealID]
  | CallListContactsFilter filter =>
      with_query listContactsEndpoint
        (Url.Encode
           (query_params
              (Reflect.Fields (ListContactsFilterRequest.ValueOf filter))))
  | CallCreateContact _ => createContactEndpoint
  | CallUpdateContact contactID _ =>
      Sprintf updateContactByIDEndpoint [OpStr contactID]
  end.

Definition call_body (c : Call) : option any :=
  match c with
  | CallListDealsFilter _ | CallListContactsFilter _ => None
  | CallCreateDeal deal => Some (interface deal)
  | CallUpdateDeal _ deal => Some (interface deal)
  | CallCreateContact contact => Some (interface contact)
  | CallUpdateContact _ contact => Some (interface contact)
  end.

(** The bytes of the request body: none for the nil interface, the
    result of [json.Marshal] otherwise. *)
Definition marshalled (reqBody : option any) : result (option string) :=
  match reqBody with
  | None => Ok None
  | Some (interface x) =>
      match Marshal x with
      | Ok bytes => Ok (Some bytes)
      | Err err => Err err
      end
  end.

(** The events of [request] before the transport is called. *)
Definition before_send (reqBody : option any) : list Event :=
  match reqBody with
  | Some _ => [EvMarshal]
  | None => []
  end.

(** The request the call hands to the transport, when the body marshals
    to [bytes]. *)
Definition call_request (s : Client) (ctx : Ctx) (c : Call)
    (bytes : option string) : Request :=
  outgoing s ctx (call_method c) (call_endpoint c) bytes.

(** The transport answers the request of a call with [resp]:
    [http.NewRequestWithContext] accepts the method and the URL, and
    [Do] returns [resp] for the request [request] hands to it. *)
Definition answered (s : Client) (ctx : Ctx) (method endpoint : string)
    (body : option string) (resp : Response) : Prop :=
  NewRequest_error method (request_url s endpoint) = None ∧
  httpClient s (outgoing s ctx method endpoint body) = Ok resp.

(** The outcome of a call whose response was accepted is the one of the
    decoder: its payload, or an error of the class [ErrDecodeResponse]
    that wraps its error, and then no payload. *)
Definition decoder_decides {A} `{Json A} (r : IO A) (what : string)
    (resp : Response) : Prop :=
  match Decode (Body resp) with
  | Ok payload => r.2 = Ok payload
  | Err cause => decode_failed r what cause
  end.

(** The paths of a wrapper, one after the other: the log and the result
    on each. *)
Definition outcome {A} `{Json A} (what : string) (rejected : Z -> bool)
    (s : Client) (ctx : Ctx) (reqBody : option any)
    (method endpoint : string) : IO A :=
  match marshalled reqBody with
  | Err cause => (before_send reqBody, Err (on_request what cause))
  | Ok bytes =>
      match NewRequest_error method (request_url s endpoint) with
      | Some err => (before_send reqBody, Err (on_request what err))
      | None =>
          let req := outgoing s ctx method endpoint bytes in
          match httpClient s req with
          | Err cause =>
              (before_send reqBody ++ [EvDo req],
               Err (on_request what cause))
          | Ok resp =>
              if rejected (StatusCode resp) then
                (before_send reqBody ++ [EvDo req; EvReadAll; EvClose],
                 match read_error (Body resp) with
                 | Some readErr =>
                     Err (on_read what (StatusCode resp) readErr)
                 | None =>
                     Err (on_status what (StatusCode resp)
                            (ErrorString (content (Body resp))))
                 end)
              else
                (before_send reqBody ++ [EvDo req; EvDecode; EvClose],
                 match Decode (Body resp) with
                 | Ok x => Ok x
                 | Err err => Err (on_decode what err)
                 end)
          end
      end
  end.

(** The event is a call of the transport. *)
Definition is_do (ev : Event) : bool :=
  match ev with EvDo _ => true | _ => false end.

(** The ways a call ends: the log and the result of each. *)
Inductive path (s : Client) (ctx : Ctx) (c : Call)
  : IO (call_payload c) → Prop :=
| path_marshal cause :
    marshalled (call_body c) = Err cause →
    path s ctx c
      (before_send (call_body c), Err (on_request (call_what c) cause))
| path_refused bytes err :
    marshalled (call_body c) = Ok bytes →
    NewRequest_error (call_method c) (request_url s (call_endpoint c)) =
    Some err →
    path s ctx c
      (before_send (call_body c), Err (on_request (call_what c) err))
| path_transport bytes cause :
    marshalled (call_body c) = Ok bytes →
    NewRequest_error (call_method c) (request_url s (call_endpoint c)) =
    None →
    httpClient s (call_request s ctx c bytes) = Err cause →
    path s ctx c
      (before_send (call_body c) ++ [EvDo (call_request s ctx c bytes)],
       Err (on_request (call_what c) cause))
| path_unread bytes resp readErr :
    marshalled (call_body c) = Ok bytes →
    NewRequest_error (call_method c) (request_url s (call_endpoint c)) =
    None →
    httpClient s (call_request s ctx c bytes) = Ok resp →
    call_accepts c (StatusCode resp) = false →
    read_error (Body resp) = Some readErr →
    path s ctx c
      (before_send (call_body c) ++
       [EvDo (call_request s ctx c bytes); EvReadAll; EvClose],
       Err (on_read (call_what c) (StatusCode resp) readErr))
| path_rejected bytes resp :
    marshalled (call_body c) = Ok bytes →
    NewRequest_error (call_method c) (request_url s (call_endpoint c)) =
    None →
    httpClient s (call_request s ctx c bytes) = Ok resp →
    call_accepts c (StatusCode resp) = false →
    read_error (Body resp) = None →
    path s ctx c
      (before_send (call_body c) ++
       [EvDo (call_request s ctx c bytes); EvReadAll; EvClose],
       Err (on_status (call_what c) (StatusCode resp)
              (ErrorString (content (Body resp)))))
| path_undecoded bytes resp err :
    marshalled (call_body c) = Ok bytes →
    NewRequest_error (call_method c) (request_url s (call_endpoint c)) =
    None →
    httpClient s (call_request s ctx c bytes) = Ok resp →
    call_accepts c (StatusCode resp) = true →
    Decode (Json:=call_json c) (Body resp) = Err err →
    path s ctx c
      (before_send (call_body c) ++
       [EvDo (call_request s ctx c bytes); EvDecode; EvClose],
       Err (on_decode (call_what c) err))
| path_decoded bytes resp x :
    marshalled (call_body c) = Ok bytes →
    NewRequest_error (call_method c) (request_url s (call_endpoint c)) =
    None →
    httpClient s (call_request s ctx c bytes) = Ok resp →
    call_accepts c (StatusCode resp) = true →
    Decode (Json:=call_json c) (Body resp) = Ok x →
    path s ctx c
      (before_send (call_body c) ++
       [EvDo (call_request s ctx c bytes); EvDecode; EvClose],
       Ok x).

End CallVocabulary.

(** ** Vocabulary of the encoder *)

(** The bytes of an encoded query: the bytes [QueryEscape] keeps, and
    [%], [+], [=] and [&]. *)
Definition query_byte (c : ascii) : bool :=
  negb (Url.shouldEscape c) || Ascii.eqb c "%" || Ascii.eqb c "+" ||
  Ascii.eqb c "=" || Ascii.eqb c "&".

(** The parameter names of the fields of a struct, in order. *)
Definition param_names (fields : list (Reflect.StructField * Reflect.Value))
  : list string :=
  (fun f => param_name f.1) <$> fields.

(** The zero filters. *)
Definition empty_deals_filter : ListDealsFilterRequest.t :=
  ListDealsFilterRequest.Build_t "" "" "" "" "" "" "" "" "" "" "" "" "" "" ""
    "" "" "" "" "" "" "" "".

Definition empty_contacts_filter : ListContactsFilterRequest.t :=
  ListContactsFilterRequest.Build_t "" "" "" "" "" "" "" "" "".

(** ** A world where a request can be refused *)

(** [sample_world] with a [http.NewRequestWithContext] that refuses a URL
    with a space in it. *)
Definition strict_world : World :=
  {| Ctx := unit;
     listDealsEndpoint := "deals";
     createDealEndpoint := "deals";
     updateDealByIDEndpoint := "deals/%s";
     listContactsEndpoint := "contacts";
     createContactEndpoint := "contacts";
     updateContactByIDEndpoint := "contacts/%s";
     ListDealsFilterResponse := string;
     CreateDealRequest := string;
     CreateDealResponse := string;
     UpdateDealRequest := string;
     UpdateDealResponse := string;
     ListContactsFilterResponse := string;
     CreateContactRequest := string;
     CreateContactResponse := string;
     UpdateContactRequest := string;
     UpdateContactResponse := string;
     ListDealsFilterResponse_json := sample_json;
     CreateDealRequest_json := sample_json;
     CreateDealResponse_json := sample_json;
     UpdateDealRequest_json := sample_json;
     UpdateDealResponse_json := sample_json;
     ListContactsFilterResponse_json := sample_json;
     CreateContactRequest_json := sample_json;
     CreateContactResponse_json := sample_json;
     UpdateContactRequest_json := sample_json;
     UpdateContactResponse_json := sample_json;
     NewRequest_error := fun _ url =>
       if Strings.Contains url " "
       then Some (ErrorString "net/url: invalid character in host name")
       else None |}.

Definition strict_client (base : string)
    (answer : result Response) : @Client strict_world :=
  {| baseUrl := base; token := "T0K"; httpClient := fun _ => answer |}.

(** ** A world with the decoder of [encoding/json] *)

(** The response of the listing of deals is decoded as [encoding/json]
    does; the package never marshals a response. *)
Definition decoding_json : Json EncodingJson.ListDealsFilterResponse :=
  {| Marshal := fun _ => Err (ErrorString "json: encoder not modelled");
     Decode := EncodingJson.Decode |}.

(** [sample_world] with that response for the listing of deals. *)
Definition decoding_world : World :=
  {| Ctx := unit;
     listDealsEndpoint := "deals";
     createDealEndpoint := "deals";
     updateDealByIDEndpoint := "deals/%s";
     listContactsEndpoint := "contacts";
     createContactEndpoint := "contacts";
     updateContactByIDEndpoint := "contacts/%s";
     ListDealsFilterResponse := EncodingJson.ListDealsFilterResponse;
     CreateDealRequest := string;
     CreateDealResponse := string;
     UpdateDealRequest := string;
     UpdateDealResponse := string;
     ListContactsFilterResponse := string;
     CreateContactRequest := string;
     CreateContactResponse := string;
     UpdateContactRequest := string;
     UpdateContactResponse := string;
     ListDealsFilterResponse_json := decoding_json;
     CreateDealRequest_json := sample_json;
     CreateDealResponse_json := sample_json;
     UpdateDealRequest_json := sample_json;
     UpdateDealResponse_json := sample_json;
     ListContactsFilterResponse_json := sample_json;
     CreateContactRequest_json := sample_json;
     CreateContactResponse_json := sample_json;
     UpdateContactRequest_json := sample_json;
     UpdateContactResponse_json := sample_json;
     NewRequest_error := fun _ _ => None |}.

Definition decoding_client (base : string)
    (answer : result Response) : @Client decoding_world :=
  {| baseUrl := base; token := "T0K"; httpClient := fun _ => answer |}.

(** * Byte strings *)

Section StringFacts.

Lemma string_app_nil_r (s : string) : s +:+ "" = s.
Proof. induction s as [|c s IH]; [done|]. change (String c (s +:+ "") = String c s). by rewrite IH. Qed.

Lemma string_app_assoc (a b c : string) : (a +:+ b) +:+ c = a +:+ (b +:+ c).
Proof.
  induction a as [|x a IH]; [done|].
  change (String x ((a +:+ b) +:+ c) = String x (a +:+ (b +:+ c))).
  by rewrite IH.
Qed.

Lemma string_app_cons (x : ascii) (a b : string) :
  String x a +:+ b = String x (a +:+ b).
Proof. done. Qed.

Lemma string_app_nil_l (b : string) : "" +:+ b = b.
Proof. done. Qed.

Lemma all_app p (a b : string) :
  Strings.all p (a +:+ b) = Strings.all p a && Strings.all p b.
Proof.
  induction a as [|x a IH]; [done|].
  rewrite string_app_cons. simpl. rewrite IH. by rewrite andb_assoc.
Qed.

Lemma Contains_byte (s : string) (c : ascii) :
  Strings.Contains s (String c "") = negb (Strings.all (isnt c) s).
Proof.
  induction s as [|x s IH]; [done|].
  simpl Strings.Contains. rewrite IH. unfold isnt. simpl.
  destruct (ascii_dec c x) as [->|Hne].
  - rewrite Ascii.eqb_refl. by destruct s.
  - assert (Ascii.eqb x c = false) as -> by (apply Ascii.eqb_neq; congruence).
    done.
Qed.

Lemma Contains_byte_app (a b : string) (c : ascii) :
  Strings.Contains (a +:+ b) (String c "") =
  Strings.Contains a (String c "") || Strings.Contains b (String c "").
Proof. by rewrite !Contains_byte, all_app, negb_andb. Qed.

Lemma Split_nonempty (s : string) (sep : ascii) : Strings.Split s sep ≠ [].
Proof.
  destruct s as [|x s]; [done|]. simpl.
  destruct (Ascii.eqb x sep); [done|]. by destruct (Strings.Split s sep).
Qed.

Lemma Split_clean (s : string) (sep : ascii) :
  Strings.all (isnt sep) s = true → Strings.Split s sep = [s].
Proof.
  induction s as [|x s IH]; [done|]. simpl. unfold isnt at 1.
  intros [Hx Hs]%andb_true_iff. apply negb_true_iff in Hx. rewrite Hx.
  by rewrite (IH Hs).
Qed.

Lemma Split_app (a b : string) (sep : ascii) :
  Strings.Split (a +:+ String sep b) sep =
  Strings.Split a sep ++ Strings.Split b sep.
Proof.
  induction a as [|x a IH].
  - rewrite string_app_nil_l. simpl. by rewrite Ascii.eqb_refl.
  - rewrite string_app_cons. simpl. destruct (Ascii.eqb x sep) eqn:Hx.
    + by rewrite IH.
    + rewrite IH. pose proof (Split_nonempty a sep).
      by destruct (Strings.Split a sep).
Qed.

Lemma Cut_app (a b : string) (sep : ascii) :
  Strings.all (isnt sep) a = true →
  Strings.Cut (a +:+ String sep b) sep = (a, b, true).
Proof.
  induction a as [|x a IH]; intros Ha.
  - rewrite string_app_nil_l. simpl. by rewrite Ascii.eqb_refl.
  - simpl in Ha. apply andb_true_iff in Ha as [Hx Ha].
    apply negb_true_iff in Hx. rewrite string_app_cons. simpl. rewrite Hx.
    by rewrite (IH Ha).
Qed.

End StringFacts.

(** * Query escaping *)

Section Escaping.

Ltac bytes c := destruct c as [[] [] [] [] [] [] [] []]; vm_compute; done.

Lemma kept_byte (c : ascii) :
  Url.shouldEscape c = false →
  Ascii.eqb c "%" = false ∧ Ascii.eqb c "+" = false ∧ plain c = true.
Proof. bytes c. Qed.

Lemma hex_byte (c : ascii) :
  let h := Url.hexdigit (N.shiftr (N_of_ascii c) 4) in
  let l := Url.hexdigit (N.land (N_of_ascii c) 15) in
  Url.ishex h && Url.ishex l = true ∧
  ascii_of_N (N.lor (N.shiftl (Url.unhex h) 4) (Url.unhex l)) = c ∧
  plain h = true ∧ plain l = true.
Proof. bytes c. Qed.

Lemma QueryEscape_plain (s : string) :
  Strings.all plain (Url.QueryEscape s) = true.
Proof.
  induction s as [|c s IH]; [done|]. simpl.
  destruct (Url.shouldEscape c) eqn:Hc.
  - destruct (Ascii.eqb c " "); simpl; [done|].
    destruct (hex_byte c) as (_ & _ & -> & ->). done.
  - simpl. destruct (kept_byte c Hc) as (_ & _ & ->). done.
Qed.

Lemma QueryUnescape_QueryEscape (s : string) :
  Url.QueryUnescape (Url.QueryEscape s) = Some s.
Proof.
  induction s as [|c s IH]; [done|]. simpl.
  destruct (Url.shouldEscape c) eqn:Hc.
  - destruct (Ascii.eqb c " ") eqn:Hsp.
    + apply Ascii.eqb_eq in Hsp as ->. simpl. by rewrite IH.
    + simpl. destruct (hex_byte c) as (-> & -> & _). by rewrite IH.
  - destruct (kept_byte c Hc) as (Hp & Hq & _).
    simpl. rewrite Hp, Hq. by rewrite IH.
Qed.

End Escaping.

(** * [Values]: [Add], [Encode] and [ParseQuery] *)

Section ValuesFacts.

Implicit Types (v m : gmap string (list string)) (ps : list (string * string)).

Lemma plain_amp (s : string) :
  Strings.all plain s = true → Strings.all (isnt "&") s = true.
Proof.
  induction s as [|c s IH]; [done|]. simpl.
  intros [Hc Hs]%andb_true_iff. rewrite (IH Hs), andb_true_r.
  unfold plain in Hc. by destruct (isnt "&" c).
Qed.

Lemma plain_eq (s : string) :
  Strings.all plain s = true → Strings.all (isnt "=") s = true.
Proof.
  induction s as [|c s IH]; [done|]. simpl.
  intros [Hc Hs]%andb_true_iff. rewrite (IH Hs), andb_true_r.
  unfold plain in Hc. destruct (isnt "=" c); [done|].
  by rewrite andb_false_r in Hc.
Qed.

Lemma plain_semi (s : string) :
  Strings.all plain s = true → Strings.all (isnt ";") s = true.
Proof.
  induction s as [|c s IH]; [done|]. simpl.
  intros [Hc Hs]%andb_true_iff. rewrite (IH Hs), andb_true_r.
  unfold plain in Hc. destruct (isnt ";" c); [done|].
  by rewrite andb_false_r in Hc.
Qed.

Lemma component_amp p : Strings.all (isnt "&") (component p) = true.
Proof.
  unfold component. rewrite !all_app.
  by rewrite !(plain_amp _ (QueryEscape_plain _)).
Qed.

Lemma component_semi p : Strings.Contains (component p) ";" = false.
Proof.
  rewrite Contains_byte. unfold component. rewrite !all_app.
  by rewrite !(plain_semi _ (QueryEscape_plain _)).
Qed.

Lemma component_nonempty p : String.eqb (component p) "" = false.
Proof.
  unfold component. destruct (Url.QueryEscape p.1); done.
Qed.

Lemma write_pair_empty p : Url.write_pair "" p = component p.
Proof. done. Qed.

Lemma write_pair_cons c buf p :
  Url.write_pair (String c buf) p = String c buf +:+ "&" +:+ component p.
Proof.
  unfold Url.write_pair.
  change (String.eqb (String c buf) "") with false. cbv iota.
  by rewrite string_app_assoc.
Qed.

Lemma foldl_write_pair_cons c buf ps :
  ∃ c' buf', foldl Url.write_pair (String c buf) ps = String c' buf'.
Proof.
  revert c buf. induction ps as [|p ps IH]; intros c buf; [by eauto|].
  simpl. rewrite write_pair_cons, string_app_cons. apply IH.
Qed.

Lemma Split_foldl_write_pair c buf ps :
  Strings.Split (foldl Url.write_pair (String c buf) ps) "&" =
  Strings.Split (String c buf) "&" ++ (component <$> ps).
Proof.
  revert c buf. induction ps as [|p ps IH]; intros c buf.
  - simpl. by rewrite List.app_nil_r.
  - simpl foldl. rewrite write_pair_cons. rewrite string_app_cons at 1.
    rewrite IH, <- string_app_cons.
    change ("&" +:+ component p) with (String "&" (component p)).
    rewrite Split_app, (Split_clean (component p)) by apply component_amp.
    by rewrite <- List.app_assoc.
Qed.

Lemma Split_encoded ps :
  ps ≠ [] →
  Strings.Split (foldl Url.write_pair "" ps) "&" = component <$> ps.
Proof.
  destruct ps as [|p ps]; [done|]. intros _. simpl foldl.
  rewrite write_pair_empty.
  destruct (component p) as [|c buf] eqn:Hp.
  { pose proof (component_nonempty p) as H. by rewrite Hp in H. }
  rewrite Split_foldl_write_pair, <- Hp.
  by rewrite Split_clean by apply component_amp.
Qed.

Lemma parse_piece_component m p :
  Url.parse_piece (m, None) (component p) = (add_pair m p, None).
Proof.
  unfold Url.parse_piece.
  rewrite component_semi, component_nonempty.
  unfold component at 1.
  change ("=" +:+ Url.QueryEscape p.2) with (String "=" (Url.QueryEscape p.2)).
  rewrite Cut_app by apply plain_eq, QueryEscape_plain.
  by rewrite !QueryUnescape_QueryEscape.
Qed.

Lemma foldl_parse_piece m ps :
  foldl Url.parse_piece (m, None) (component <$> ps) =
  (foldl add_pair m ps, None).
Proof.
  revert m. induction ps as [|p ps IH]; intros m; [done|].
  rewrite fmap_cons. cbn [foldl]. by rewrite parse_piece_component, IH.
Qed.

(** Decoding an encoded map replays its pairs in the order [Encode]
    wrote them. *)
Lemma ParseQuery_Encode_pairs v :
  Url.ParseQuery (Url.Encode v) = (from_pairs (Url.pairs v), None).
Proof.
  unfold Url.ParseQuery, Url.Encode, from_pairs.
  destruct (Url.pairs v) as [|p ps] eqn:Hps; [done|].
  rewrite Split_encoded by done. apply foldl_parse_piece.
Qed.

End ValuesFacts.

Section MapFacts.

Implicit Types (v m : gmap string (list string)) (ps : list (string * string)).
Implicit Types (es : list (string * list string)).

Lemma lookup_add_pair m p k :
  default [] (add_pair m p !! k) =
  default [] (m !! k) ++ (if decide (p.1 = k) then [p.2] else []).
Proof.
  unfold add_pair, Url.Add. rewrite lookup_insert.
  destruct (decide (p.1 = k)) as [->|]; simpl; [done|].
  by rewrite List.app_nil_r.
Qed.

Lemma lookup_foldl_add_pair m ps k :
  default [] (foldl add_pair m ps !! k) = default [] (m !! k) ++ values_of k ps.
Proof.
  revert m. induction ps as [|p ps IH]; intros m.
  - simpl. by rewrite List.app_nil_r.
  - cbn [foldl]. rewrite IH, lookup_add_pair. unfold values_of.
    rewrite filter_cons. destruct (decide (p.1 = k)); simpl.
    + by rewrite <- List.app_assoc.
    + by rewrite List.app_nil_r.
Qed.

Lemma populated_empty : populated ∅.
Proof. intros k. by rewrite lookup_empty. Qed.

Lemma populated_add_pair m p : populated m → populated (add_pair m p).
Proof.
  intros Hm k. unfold add_pair, Url.Add. rewrite lookup_insert.
  destruct (decide (p.1 = k)); [|apply Hm].
  intros [=H]. by apply app_eq_nil in H as [_ ?].
Qed.

Lemma populated_foldl m ps : populated m → populated (foldl add_pair m ps).
Proof.
  revert m. induction ps as [|p ps IH]; intros m Hm; [done|].
  cbn [foldl]. by apply IH, populated_add_pair.
Qed.

Lemma foldl_add_pair_key m k x vs :
  foldl add_pair m (pair k <$> x :: vs) =
  <[k := default [] (m !! k) ++ x :: vs]> m.
Proof.
  revert m x. induction vs as [|y vs IH]; intros m x; [done|].
  rewrite fmap_cons. cbn [foldl]. rewrite IH.
  unfold add_pair at 1 2. unfold Url.Add. simpl.
  rewrite lookup_insert_eq, insert_insert_eq. simpl.
  by rewrite <- List.app_assoc.
Qed.

Lemma foldl_add_pair_flatten m es :
  NoDup es.*1 →
  (∀ e, e ∈ es → e.2 ≠ [] ∧ m !! e.1 = None) →
  foldl add_pair m (flatten es) = list_to_map es ∪ m.
Proof.
  revert m. induction es as [|[k vs] es IH]; intros m Hnd Hes.
  - simpl. by rewrite (left_id_L ∅ (∪)).
  - apply NoDup_cons in Hnd as [Hk Hnd].
    destruct (Hes (k, vs)) as [Hvs Hmk]; [left|]. simpl in Hvs, Hmk.
    unfold flatten. rewrite bind_cons, foldl_app. simpl fst. simpl snd.
    destruct vs as [|x vs]; [done|].
    rewrite foldl_add_pair_key, Hmk. simpl default. rewrite app_nil_l.
    fold (flatten es). rewrite IH; [|done|].
    + simpl list_to_map. rewrite <- insert_union_l.
      rewrite insert_union_r; [done|].
      by apply not_elem_of_list_to_map_1.
    + intros e He. destruct (Hes e) as [? ?]; [by right|]. split; [done|].
      rewrite lookup_insert_ne; [done|]. intros ->.
      apply Hk, list_elem_of_fmap. by exists e.
Qed.

Lemma entries_perm v : Url.entries v ≡ₚ map_to_list v.
Proof. apply merge_sort_Permutation. Qed.

Lemma entries_NoDup v : NoDup (Url.entries v).*1.
Proof. rewrite entries_perm. apply NoDup_fst_map_to_list. Qed.

Lemma list_to_map_entries v : list_to_map (Url.entries v) = v.
Proof. symmetry. apply list_to_map_flip. symmetry. apply entries_perm. Qed.

(** [Encode] writes every pair of a map built by [Add]: replaying the
    pairs gives the map back. *)
Lemma from_pairs_pairs v : populated v → from_pairs (Url.pairs v) = v.
Proof.
  intros Hv. unfold from_pairs, Url.pairs. fold (flatten (Url.entries v)).
  rewrite foldl_add_pair_flatten.
  - by rewrite (right_id_L ∅ (∪)), list_to_map_entries.
  - apply entries_NoDup.
  - intros [k vs] He. rewrite entries_perm in He.
    apply elem_of_map_to_list in He. simpl. split; [|apply lookup_empty].
    intros ->. by apply (Hv k).
Qed.

Lemma ParseQuery_Encode v :
  populated v → Url.ParseQuery (Url.Encode v) = (v, None).
Proof. intros Hv. by rewrite ParseQuery_Encode_pairs, from_pairs_pairs. Qed.

Lemma filter_flatten k es :
  NoDup es.*1 →
  filter (fun p => p.1 = k) (flatten es) =
  pair k <$> default [] ((list_to_map es : gmap string (list string)) !! k).
Proof.
  induction es as [|[k' vs] es IH]; intros Hnd; [done|].
  apply NoDup_cons in Hnd as [Hk Hnd].
  unfold flatten. rewrite bind_cons, filter_app. fold (flatten es).
  rewrite (IH Hnd). simpl. rewrite lookup_insert.
  destruct (decide (k' = k)) as [->|Hne]; simpl.
  - rewrite (not_elem_of_list_to_map_1 _ _ Hk). simpl.
    rewrite List.app_nil_r. clear. induction vs as [|x vs IH]; [done|].
    rewrite fmap_cons, filter_cons_True by done. by rewrite IH.
  - replace (filter (λ p, p.1 = k) (pair k' <$> vs)) with (@nil (string * string)); [done|].
    clear -Hne. induction vs as [|x vs IH]; [done|].
    rewrite fmap_cons, filter_cons_False by done. done.
Qed.

(** The pairs of key [k] that [Encode] writes are the values of [k]. *)
Lemma filter_pairs k v :
  filter (fun p => p.1 = k) (Url.pairs v) = pair k <$> default [] (v !! k).
Proof.
  unfold Url.pairs. fold (flatten (Url.entries v)).
  by rewrite filter_flatten, list_to_map_entries by apply entries_NoDup.
Qed.

End MapFacts.

(** * The encoder *)

Section Encoder.

Import Reflect.
Implicit Types (q m : gmap string (list string)).
Implicit Types (f : StructField * Value) (fields : list (StructField * Value)).

Lemma foldl_Add_elems {A} q (tag : string) (g : A → string) (l : list A) :
  foldl (fun q e => Url.Add q tag (g e)) q l =
  foldl add_pair q (pair tag <$> (g <$> l)).
Proof. revert q. induction l as [|x l IH]; intros q; [done|]. simpl. by rewrite IH. Qed.

Lemma values_of_key k (l : list string) : values_of k (pair k <$> l) = l.
Proof.
  unfold values_of. induction l as [|x l IH]; [done|].
  rewrite fmap_cons, filter_cons_True by done. rewrite fmap_cons.
  by f_equal.
Qed.

Lemma values_of_other k k' (l : list string) :
  k' ≠ k → values_of k (pair k' <$> l) = [].
Proof.
  intros Hne. unfold values_of. induction l as [|x l IH]; [done|].
  by rewrite fmap_cons, filter_cons_False.
Qed.

Lemma values_of_app k (a b : list (string * string)) :
  values_of k (a ++ b) = values_of k a ++ values_of k b.
Proof. unfold values_of. by rewrite filter_app, fmap_app. Qed.

Lemma lookup_from_key k (l : list string) :
  default [] (foldl add_pair ∅ (pair k <$> l) !! k) = l.
Proof. by rewrite lookup_foldl_add_pair, lookup_empty, values_of_key. Qed.

(** The loop body is a sequence of [Add] calls under the parameter name
    of the field. *)
Lemma add_field_pairs q f :
  add_field q f = foldl add_pair q (pair (param_name f.1) <$> contribution f).
Proof.
  destruct f as [ft v]. unfold contribution. simpl fst.
  destruct v as [|b|t i|t u|s|elems|fs|t text]; try done.
  - destruct b; [|done]. unfold add_field. simpl.
    unfold Url.Add. by rewrite lookup_empty, lookup_insert_eq.
  - unfold add_field. destruct t; simpl; (destruct (Z.eqb i 0); [done|]);
      simpl; unfold Url.Add; by rewrite lookup_empty, lookup_insert_eq.
  - destruct t; done.
  - unfold add_field. simpl. destruct (String.eqb s ""); [done|]. simpl.
    unfold Url.Add. by rewrite lookup_empty, lookup_insert_eq.
  - unfold add_field. simpl. rewrite !foldl_Add_elems.
    by rewrite lookup_from_key.
  - destruct t; done.
Qed.

Lemma foldl_add_field q fields :
  foldl add_field q fields = foldl add_pair q (struct_pairs fields).
Proof.
  revert q. induction fields as [|f fields IH]; intros q; [done|].
  cbn [foldl]. unfold struct_pairs. rewrite bind_cons, foldl_app.
  by rewrite IH, <- add_field_pairs.
Qed.

Lemma query_params_pairs fields :
  query_params fields = from_pairs (struct_pairs fields).
Proof. apply foldl_add_field. Qed.

Lemma populated_query_params fields : populated (query_params fields).
Proof.
  rewrite query_params_pairs. apply populated_foldl, populated_empty.
Qed.

Lemma values_of_struct_pairs k fields :
  values_of k (struct_pairs fields) = values_under fields k.
Proof.
  unfold struct_pairs, values_under.
  induction fields as [|f fields IH]; [done|].
  rewrite !bind_cons, values_of_app, IH. f_equal.
  destruct (decide (param_name f.1 = k)) as [<-|Hne].
  - apply values_of_key.
  - by apply values_of_other.
Qed.

Lemma lookup_query_params fields k :
  default [] (query_params fields !! k) = values_under fields k.
Proof.
  rewrite query_params_pairs. unfold from_pairs.
  by rewrite lookup_foldl_add_pair, lookup_empty, values_of_struct_pairs.
Qed.

(** Two maps built by [Add] with the same values under every key are the
    same map. *)
Lemma populated_eq m1 m2 :
  populated m1 → populated m2 →
  (∀ k, default [] (m1 !! k) = default [] (m2 !! k)) → m1 = m2.
Proof.
  intros H1 H2 H. apply map_eq. intros k. specialize (H k).
  specialize (H1 k). specialize (H2 k).
  destruct (m1 !! k) as [[|x l]|], (m2 !! k) as [[|y l']|];
    simplify_eq/=; done.
Qed.

Lemma StructToQueryString_struct fields :
  StructToQueryString (VStruct fields) = Ok (Url.Encode (query_params fields)).
Proof. done. Qed.

Lemma StructToQueryString_decodes fields :
  Url.ParseQuery (Url.Encode (query_params fields)) =
  (query_params fields, None).
Proof. apply ParseQuery_Encode, populated_query_params. Qed.

Lemma Encode_empty : Url.Encode ∅ = "".
Proof. done. Qed.

End Encoder.

(** * The pipeline *)

Section ErrorFacts.

Lemma error_eqb_refl (e : error) : error_eqb e e = true.
Proof.
  revert e. fix IH 1. intros [s|text|text wrapped]; simpl.
  - by destruct s.
  - apply String.eqb_refl.
  - rewrite String.eqb_refl. simpl.
    induction wrapped as [|e es IHes]; [done|]. by rewrite IH, IHes.
Qed.

Lemma Is_refl (e : error) : Is e e = true.
Proof.
  assert (error_eqb e e = true) as H by apply error_eqb_refl.
  destruct e; simpl in *; by rewrite H.
Qed.

Lemma Is_wrapped text (es : list error) (e : error) :
  e ∈ es → Is (WrapErrors text es) e = true.
Proof.
  intros He. simpl. apply orb_true_iff. right. apply existsb_exists.
  exists e. split; [by apply list_elem_of_In|apply Is_refl].
Qed.

Lemma classified_intro {A} (r : result A) class text cause :
  r = Err (WrapErrors text [Sentinel class; cause]) →
  classified r class text cause.
Proof.
  intros ->. eexists. split_and!; [done|done|..].
  - apply Is_wrapped, list_elem_of_here.
  - apply Is_wrapped, list_elem_of_further, list_elem_of_here.
Qed.

End ErrorFacts.

Ltac run_io :=
  unfold Decoder_Decode, ReadAll, errors_New, json_Marshal,
    NewRequestWithContext, Do;
  unfold mbind, IO_bind, mret, IO_ret, bind, ret, or_fail, lift, fail, emit,
    defer.

Section PipelineFacts.

Context `{W : World}.

Lemma request_url_eq s endpoint :
  request_url s endpoint =
  baseUrl s +:+ "/" +:+ endpoint +:+
  (if Strings.Contains (baseUrl s +:+ "/" +:+ endpoint) "?" then "&" else "?")
  +:+ "token=" +:+ token s.
Proof.
  unfold request_url, Sprintf. simpl.
  rewrite !string_app_nil_r. by rewrite string_app_assoc.
Qed.

Lemma request_nil s ctx method endpoint :
  request s ctx None method endpoint =
  match NewRequest_error method (request_url s endpoint) with
  | Some err => ([], Err err)
  | None =>
      let req := outgoing s ctx method endpoint None in
      ([EvDo req], httpClient s req)
  end.
Proof.
  unfold request. run_io.
  destruct (NewRequest_error method (request_url s endpoint)); [done|].
  simpl. unfold outgoing, Header_Set. simpl.
  by destruct (httpClient s _).
Qed.

Lemma request_body s ctx `{Json A} (x : A) method endpoint :
  request s ctx (Some (interface x)) method endpoint =
  match Marshal x with
  | Err err => ([EvMarshal], Err err)
  | Ok marshalledBody =>
      match NewRequest_error method (request_url s endpoint) with
      | Some err => ([EvMarshal], Err err)
      | None =>
          let req := outgoing s ctx method endpoint (Some marshalledBody) in
          ([EvMarshal; EvDo req], httpClient s req)
      end
  end.
Proof.
  unfold request. run_io.
  destruct (Marshal x); [|done].
  destruct (NewRequest_error method (request_url s endpoint)); [done|].
  simpl. unfold outgoing, Header_Set. simpl.
  by destruct (httpClient s _).
Qed.

(** What [request] leaves in the log: the events before the transport is
    called, and the request, if the transport is reached. *)
Lemma request_log s ctx reqBody method endpoint :
  ∃ pre sent,
    (request s ctx reqBody method endpoint).1 = pre ++ sent ∧
    pre ⊆ [EvMarshal] ∧
    ((sent = [] ∧ is_ok (request s ctx reqBody method endpoint).2 = false) ∨
     ∃ req, sent = [EvDo req] ∧
            URL req = request_url s endpoint ∧ Method req = method ∧
            (request s ctx reqBody method endpoint).2 = httpClient s req).
Proof.
  destruct reqBody as [[A J x]|].
  - rewrite request_body. destruct (Marshal x).
    + destruct (NewRequest_error method _).
      * exists [EvMarshal], []. split_and!; [done|set_solver|by left].
      * exists [EvMarshal], [EvDo (outgoing s ctx method endpoint (Some x0))].
        split_and!; [done|set_solver|right; eauto].
    + exists [EvMarshal], []. split_and!; [done|set_solver|by left].
  - rewrite request_nil. destruct (NewRequest_error method _).
    + exists [], []. split_and!; [done|set_solver|by left].
    + exists [], [EvDo (outgoing s ctx method endpoint None)].
      split_and!; [done|set_solver|right; eauto].
Qed.

Lemma respond_rejected {A} `{Json A} rejected on_read on_status on_decode
    (resp : Response) :
  rejected (StatusCode resp) = true →
  respond (A:=A) rejected on_read on_status on_decode resp =
  ([EvReadAll; EvClose],
   match read_error (Body resp) with
   | None =>
       Err (on_status (StatusCode resp) (ErrorString (content (Body resp))))
   | Some readErr => Err (on_read (StatusCode resp) readErr)
   end).
Proof.
  intros Hst. unfold respond. rewrite Hst. run_io.
  by destruct (read_error (Body resp)).
Qed.

Lemma respond_accepted {A} `{Json A} rejected on_read on_status on_decode
    (resp : Response) :
  rejected (StatusCode resp) = false →
  respond (A:=A) rejected on_read on_status on_decode resp =
  ([EvDecode; EvClose],
   match Decode (Body resp) with
   | Ok x => Ok x
   | Err err => Err (on_decode err)
   end).
Proof.
  intros Hst. unfold respond. rewrite Hst. run_io.
  by destruct (Decode (Body resp)).
Qed.

Lemma respond_log {A} `{Json A} rejected on_read on_status on_decode
    (resp : Response) :
  (respond (A:=A) rejected on_read on_status on_decode resp).1
  ⊆ [EvReadAll; EvDecode; EvClose].
Proof.
  destruct (rejected (StatusCode resp)) eqn:Hst.
  - rewrite respond_rejected by done. set_solver.
  - rewrite respond_accepted by done. set_solver.
Qed.

(** A call that reached the transport with [req] ends as the answer of
    the transport to [req] decides. *)
Lemma bind_sent {A} s ctx reqBody method endpoint on_request
    (k : Response → IO A) req :
  (∀ resp0, (k resp0).1 ⊆ [EvReadAll; EvDecode; EvClose]) →
  let r := or_fail (request s ctx reqBody method endpoint) on_request ≫= k in
  EvDo req ∈ r.1 →
  ∃ pre,
    pre ⊆ [EvMarshal; EvDo req] ∧
    URL req = request_url s endpoint ∧
    r = match httpClient s req with
        | Ok resp => (pre ++ (k resp).1, (k resp).2)
        | Err err => (pre, Err (on_request err))
        end.
Proof.
  intros Hk r Hin. subst r.
  destruct (request_log s ctx reqBody method endpoint)
    as (pre & sent & Htr & Hpre & Hsent).
  destruct (request s ctx reqBody method endpoint) as [tr res] eqn:Hreq.
  simpl in Htr, Hsent. subst tr.
  destruct Hsent as [[-> Hres]|(req0 & -> & Hurl & _ & Hres)].
  - destruct res as [x|e]; [done|]. revert Hin. run_io. simpl.
    rewrite List.app_nil_r. intros Hin. apply Hpre in Hin. set_solver.
  - assert (req = req0) as <-.
    { destruct res as [resp0|e]; revert Hin; run_io; simpl.
      - specialize (Hk resp0). destruct (k resp0) as [tr2 r2].
        simpl in *. intros Hin.
        rewrite !elem_of_app in Hin. destruct Hin as [[Hin|Hin]|Hin].
        + apply Hpre in Hin. set_solver.
        + set_solver.
        + apply Hk in Hin. set_solver.
      - intros Hin. rewrite elem_of_app in Hin. destruct Hin as [Hin|Hin].
        + apply Hpre in Hin. set_solver.
        + set_solver. }
    exists (pre ++ [EvDo req]). split_and!; [set_solver|done|].
    subst res. run_io. destruct (httpClient s req) as [resp|err]; [|done].
    destruct (k resp) as [tr2 r2]. simpl. by rewrite <- List.app_assoc.
Qed.

Lemma call_sent {A} `{Json A} s ctx reqBody method endpoint on_request
    rejected on_read on_status on_decode req :
  let r := call (A:=A) s ctx reqBody method endpoint on_request rejected
             on_read on_status on_decode in
  let k := respond (A:=A) rejected on_read on_status on_decode in
  EvDo req ∈ r.1 →
  ∃ pre,
    pre ⊆ [EvMarshal; EvDo req] ∧
    URL req = request_url s endpoint ∧
    r = match httpClient s req with
        | Ok resp => (pre ++ (k resp).1, (k resp).2)
        | Err err => (pre, Err (on_request err))
        end.
Proof. apply bind_sent. intros resp0. apply respond_log. Qed.

Lemma format_text (t rest : string) (args : list operand) :
  Strings.all (isnt "%") t = true →
  format (t +:+ rest) args =
  (t +:+ (format rest args).1, (format rest args).2).
Proof.
  induction t as [|c t IH]; intros Ht.
  - rewrite !string_app_nil_l. by destruct (format rest args).
  - simpl in Ht. apply andb_true_iff in Ht as [Hc Ht].
    apply negb_true_iff in Hc. rewrite string_app_cons. simpl.
    rewrite Hc, (IH Ht). done.
Qed.

Section Wording.

Variable what : string.
Hypothesis what_plain : Strings.all (isnt "%") what = true.

Lemma on_request_eq err :
  on_request what err =
  WrapErrors (sentinel_text ErrRequestFailed +:+
              ": error making request to " +:+ what +:+ ": " +:+ Error err)
    [Sentinel ErrRequestFailed; err].
Proof.
  unfold on_request, Errorf. simpl. rewrite !format_text by done.
  simpl. by rewrite string_app_nil_r.
Qed.

Lemma on_read_eq status readErr :
  on_read what status readErr =
  WrapErrors (sentinel_text ErrReadResponseBody +:+ ": failed to " +:+
              what +:+ " (status: " +:+ Strconv.FormatInt status +:+
              "), read response body error: " +:+ Error readErr)
    [Sentinel ErrReadResponseBody; readErr].
Proof.
  unfold on_read, Errorf. simpl. rewrite !format_text by done.
  simpl. by rewrite string_app_nil_r.
Qed.

Lemma on_status_eq status bodyErr :
  on_status what status bodyErr =
  WrapErrors (sentinel_text ErrApiReturnedError +:+ ": failed to " +:+
              what +:+ " (status: " +:+ Strconv.FormatInt status +:+
              "): " +:+ Error bodyErr)
    [Sentinel ErrApiReturnedError; bodyErr].
Proof.
  unfold on_status, Errorf. simpl. rewrite !format_text by done.
  simpl. by rewrite string_app_nil_r.
Qed.

Lemma on_decode_eq err :
  on_decode what err =
  WrapErrors (sentinel_text ErrDecodeResponse +:+ ": error decoding " +:+
              what +:+ " response: " +:+ Error err)
    [Sentinel ErrDecodeResponse; err].
Proof.
  unfold on_decode, Errorf. simpl. rewrite !format_text by done.
  simpl. by rewrite string_app_nil_r.
Qed.

Context {A : Type} `{Json A}.
Variables (rejected : Z → bool) (s : Client) (ctx : Ctx).
Variables (reqBody : option any) (method endpoint : string).

Let r : IO A := wrapper what rejected s ctx reqBody method endpoint.

Lemma wrapper_answered req resp :
  EvDo req ∈ r.1 → httpClient s req = Ok resp →
  ∃ pre,
    pre ⊆ [EvMarshal; EvDo req] ∧
    r = (pre ++ (respond (A:=A) rejected (on_read what) (on_status what)
                   (on_decode what) resp).1,
         (respond (A:=A) rejected (on_read what) (on_status what)
            (on_decode what) resp).2).
Proof.
  intros Hin Hresp.
  destruct (call_sent (A:=A) s ctx reqBody method endpoint
              (on_request what) rejected (on_read what) (on_status what)
              (on_decode what) req Hin) as (pre & ? & _ & Hr).
  rewrite Hresp in Hr. by exists pre.
Qed.

Lemma wrapper_rejected req resp :
  EvDo req ∈ r.1 → httpClient s req = Ok resp →
  rejected (StatusCode resp) = true →
  api_rejected r what resp.
Proof.
  intros Hin Hresp Hst.
  destruct (wrapper_answered req resp Hin Hresp) as (pre & Hpre & ->).
  rewrite respond_rejected by done. split.
  - simpl. rewrite elem_of_app. intros [Hd|Hd]; [|set_solver].
    apply Hpre in Hd. set_solver.
  - simpl. destruct (read_error (Body resp)).
    + apply classified_intro. by rewrite on_read_eq.
    + apply classified_intro. by rewrite on_status_eq.
Qed.

Lemma wrapper_decode_failed req resp cause :
  EvDo req ∈ r.1 → httpClient s req = Ok resp →
  rejected (StatusCode resp) = false →
  Decode (Body resp) = Err cause →
  decode_failed r what cause.
Proof.
  intros Hin Hresp Hst Hdec.
  destruct (wrapper_answered req resp Hin Hresp) as (pre & Hpre & ->).
  rewrite respond_accepted by done. unfold decode_failed. simpl.
  rewrite Hdec, on_decode_eq. split; [by apply classified_intro|done].
Qed.

Lemma wrapper_decoded req resp x :
  EvDo req ∈ r.1 → httpClient s req = Ok resp →
  rejected (StatusCode resp) = false →
  Decode (Body resp) = Ok x →
  r.2 = Ok x.
Proof.
  intros Hin Hresp Hst Hdec.
  destruct (wrapper_answered req resp Hin Hresp) as (pre & Hpre & ->).
  rewrite respond_accepted by done. simpl. by rewrite Hdec.
Qed.

Lemma wrapper_transport_failed req cause :
  EvDo req ∈ r.1 → httpClient s req = Err cause →
  request_failed r what cause.
Proof.
  intros Hin Hdo.
  destruct (call_sent (A:=A) s ctx reqBody method endpoint
              (on_request what) rejected (on_read what) (on_status what)
              (on_decode what) req Hin) as (pre & ? & _ & Hr).
  rewrite Hdo in Hr. unfold request_failed. subst r. unfold wrapper.
  rewrite Hr. simpl. apply classified_intro. by rewrite on_request_eq.
Qed.

End Wording.

Lemma wrapper_marshal_failed {A} `{Json A} {B} `{Json B} what rejected s ctx
    (x : B) method endpoint cause :
  Strings.all (isnt "%") what = true →
  Marshal x = Err cause →
  wrapper (A:=A) what rejected s ctx (Some (interface x)) method endpoint =
  ([EvMarshal],
   Err (WrapErrors
          (sentinel_text ErrRequestFailed +:+ ": error making request to " +:+
           what +:+ ": " +:+ Error cause)
          [Sentinel ErrRequestFailed; cause])).
Proof.
  intros Hw Hm. unfold wrapper, call. rewrite request_body, Hm. run_io.
  by rewrite on_request_eq.
Qed.

Lemma bind_ret {A B} (x : A) (k : A → IO B) : bind ([], Ok x) k = k x.
Proof. unfold bind. by destruct (k x). Qed.

(** Each wrapper has the shape of [wrapper]. *)
Lemma ListDealsFilter_wrapper s ctx filter :
  ListDealsFilter s ctx filter =
  wrapper "list deals" not_ok s ctx None MethodGet
    (with_query listDealsEndpoint
       (Url.Encode (query_params
          (Reflect.Fields (ListDealsFilterRequest.ValueOf filter))))).
Proof.
  exact (bind_ret _ (fun queryString =>
           wrapper "list deals" not_ok s ctx None MethodGet
             (with_query listDealsEndpoint queryString))).
Qed.

Lemma CreateDeal_wrapper s ctx deal :
  CreateDeal s ctx deal =
  wrapper "create deal" not_ok_nor_created s ctx (Some (interface deal))
    MethodPost createDealEndpoint.
Proof. reflexivity. Qed.

Lemma UpdateDeal_wrapper s ctx dealID deal :
  UpdateDeal s ctx dealID deal =
  wrapper "update deal" not_ok s ctx (Some (interface deal)) MethodPut
    (Sprintf updateDealByIDEndpoint [OpStr dealID]).
Proof. reflexivity. Qed.

Lemma ListContactsFilter_wrapper s ctx filter :
  ListContactsFilter s ctx filter =
  wrapper "list contacts" not_ok s ctx None MethodGet
    (with_query listContactsEndpoint
       (Url.Encode (query_params
          (Reflect.Fields (ListContactsFilterRequest.ValueOf filter))))).
Proof.
  exact (bind_ret _ (fun queryString =>
           wrapper "list contacts" not_ok s ctx None MethodGet
             (with_query listContactsEndpoint queryString))).
Qed.

Lemma CreateContact_wrapper s ctx contact :
  CreateContact s ctx contact =
  wrapper "create contact" not_ok_nor_created s ctx
    (Some (interface contact)) MethodPost createContactEndpoint.
Proof. reflexivity. Qed.

Lemma UpdateContact_wrapper s ctx contactID contact :
  UpdateContact s ctx contactID contact =
  wrapper "update contact" not_ok s ctx (Some (interface contact)) MethodPut
    (Sprintf updateContactByIDEndpoint [OpStr contactID]).
Proof. reflexivity. Qed.

End PipelineFacts.

(** * Facts used by the claims *)

Section ClaimFacts.

Import Reflect.

Import Reflect.

Lemma param_name_by_tag ft : param_name ft = name_by_tag ft.
Proof.
  unfold param_name, name_by_tag, query_tag.
  destruct (String.eqb_spec (Get (Tag ft) "query") "") as [->|H1]; [done|].
  destruct (String.eqb_spec (Get (Tag ft) "query") "-") as [->|H2].
  - done.
  - simpl. by rewrite decide_True.
Qed.

Lemma lookup_add_field_other q f k :
  k ≠ param_name f.1 → add_field q f !! k = q !! k.
Proof.
  intros Hk. rewrite add_field_pairs.
  generalize (contribution f). intros vs. revert q.
  induction vs as [|v vs IH]; intros q; [done|].
  rewrite fmap_cons. cbn [foldl]. rewrite IH.
  unfold add_pair, Url.Add. simpl. by rewrite lookup_insert_ne.
Qed.

Lemma lookup_populated_nil (m : gmap string (list string)) k :
  populated m → default [] (m !! k) = [] → m !! k = None.
Proof.
  intros Hm Hk. specialize (Hm k). by destruct (m !! k) as [[|]|].
Qed.

(** The output of the encoder on a struct, decoded. *)
Lemma encoder_output fields :
  ∃ q, StructToQueryString (VStruct fields) = Ok q ∧
       Url.ParseQuery q = (query_params fields, None) ∧
       Url.Encode (query_params fields) = q.
Proof.
  eexists. split; [apply StructToQueryString_struct|].
  split; [apply StructToQueryString_decodes|done].
Qed.

Lemma contribution_cases f :
  contribution f =
  match f.2 with
  | VString s => if decide (s = "") then [] else [s]
  | VInt _ i => if decide (i = 0) then [] else [Strconv.FormatInt i]
  | VBool b => if b then ["true"] else []
  | VSlice elems => Sprintf_v <$> elems
  | _ => []
  end.
Proof.
  destruct f as [ft v]. unfold contribution. simpl snd. simpl fst.
  destruct v as [|b|t i|t u|s|elems|fs|t text]; try done.
  - destruct b; [|done]. unfold add_field. simpl.
    unfold Url.Add. by rewrite lookup_empty, lookup_insert_eq.
  - unfold add_field.
    destruct t; simpl; (destruct (Z.eqb_spec i 0) as [->|Hi]; [done|]);
      simpl; unfold Url.Add; rewrite lookup_empty, lookup_insert_eq;
      by rewrite decide_False.
  - by destruct t.
  - unfold add_field. simpl.
    destruct (String.eqb_spec s "") as [->|Hs]; [done|]. simpl.
    unfold Url.Add. rewrite lookup_empty, lookup_insert_eq.
    by rewrite decide_False.
  - unfold add_field. simpl. rewrite foldl_Add_elems.
    by rewrite lookup_from_key.
  - by destruct t.
Qed.

Lemma add_field_Add q f :
  add_field q f =
  foldl (fun m v => Url.Add m (param_name f.1) v) q (contribution f).
Proof.
  rewrite add_field_pairs. generalize (contribution f). intros vs. revert q.
  induction vs as [|v vs IH]; intros q; [done|].
  rewrite fmap_cons. cbn [foldl]. by rewrite IH.
Qed.

Lemma ParseInt_FormatInt (i : Z) :
  Strconv.ParseInt (Strconv.FormatInt i) = Some i.
Proof.
  unfold Strconv.ParseInt, Strconv.FormatInt.
  rewrite NilZero.isi.
  - simpl. by rewrite DecimalZ.of_to.
  - destruct i; simpl; try discriminate.
    intros [= H]. by apply Unsigned.to_uint_nonnil in H.
  - destruct i; simpl; try discriminate.
    intros [= H]. by apply Unsigned.to_uint_nonnil in H.
Qed.

Lemma lookup_single_field ft v :
  query_params [(ft, v)] !! param_name ft =
  match contribution (ft, v) with [] => None | vs => Some vs end.
Proof.
  pose proof (populated_query_params [(ft, v)] (param_name ft)) as Hp.
  pose proof (lookup_query_params [(ft, v)] (param_name ft)) as Hl.
  unfold values_under in Hl. simpl in Hl.
  rewrite decide_True, List.app_nil_r in Hl by done.
  destruct (query_params [(ft, v)] !! param_name ft) as [[|x l]|];
    simpl in Hl; rewrite <- Hl; done.
Qed.

Lemma not_ok_true (status : Z) : status ≠ StatusOK → not_ok status = true.
Proof. intros H. unfold not_ok. by apply negb_true_iff, Z.eqb_neq. Qed.

Lemma not_ok_nor_created_true (status : Z) :
  status ≠ StatusOK → status ≠ StatusCreated →
  not_ok_nor_created status = true.
Proof.
  intros H1 H2. unfold not_ok_nor_created.
  apply andb_true_iff. split; by apply negb_true_iff, Z.eqb_neq.
Qed.

Lemma not_ok_false (status : Z) : status = StatusOK → not_ok status = false.
Proof. by intros ->. Qed.

Lemma not_ok_nor_created_false (status : Z) :
  status = StatusOK ∨ status = StatusCreated →
  not_ok_nor_created status = false.
Proof. by intros [-> | ->]. Qed.

Lemma contribution_string ft (s : string) :
  contribution (ft, Reflect.VString s) = if decide (s = "") then [] else [s].
Proof.
  unfold contribution, add_field. simpl.
  destruct (String.eqb_spec s "") as [->|Hne]; simpl.
  - by rewrite lookup_empty.
  - unfold Url.Add. rewrite lookup_empty, lookup_insert_eq.
    by destruct (decide (s = "")).
Qed.

Lemma values_under_cons f fields k :
  values_under (f :: fields) k =
  (if decide (param_name f.1 = k) then contribution f else []) ++
  values_under fields k.
Proof. done. Qed.

Lemma values_under_string_field name form query value k fields :
  query ≠ "" → query ≠ "-" →
  values_under (string_field name form query value :: fields) k =
  (if decide (query = k) then if decide (value = "") then [] else [value]
   else []) ++ values_under fields k.
Proof.
  intros H1 H2. rewrite values_under_cons. unfold string_field.
  rewrite contribution_string. f_equal.
  unfold param_name. simpl.
  apply String.eqb_neq in H1, H2. by rewrite H1, H2.
Qed.

Lemma Encode_nonempty v :
  Url.pairs v ≠ [] → String.eqb (Url.Encode v) "" = false.
Proof.
  unfold Url.Encode. destruct (Url.pairs v) as [|p ps]; [done|]. intros _.
  simpl foldl. rewrite write_pair_empty.
  destruct (component p) as [|c buf] eqn:Hp.
  { pose proof (component_nonempty p) as H. by rewrite Hp in H. }
  by destruct (foldl_write_pair_cons c buf ps) as (c' & buf' & ->).
Qed.

(** The URL of a listing call whose encoded filter has a [token] pair. *)
Lemma listing_url `{W : World} (s : Client) (endpoint : string)
    (fields : list (Reflect.StructField * Reflect.Value)) (tok : string) :
  values_under fields "token" = [tok] →
  let q := Url.Encode (query_params fields) in
  request_url s (with_query endpoint q) =
  baseUrl s +:+ "/" +:+ endpoint +:+ "?" +:+ q +:+ "&token=" +:+ token s ∧
  Strings.Split (q +:+ "&token=" +:+ token s) "&" =
  (component <$> Url.pairs (query_params fields)) ++
  Strings.Split ("token=" +:+ token s) "&" ∧
  filter (fun p => p.1 = "token") (Url.pairs (query_params fields)) =
  [("token", tok)].
Proof.
  intros Htok q.
  assert (filter (fun p => p.1 = "token") (Url.pairs (query_params fields)) =
          [("token", tok)]) as Hf.
  { by rewrite filter_pairs, lookup_query_params, Htok. }
  assert (Url.pairs (query_params fields) ≠ []) as Hne.
  { intros Hnil. by rewrite Hnil in Hf. }
  split_and!; [| |done].
  2:{ change ("&token=" +:+ token s)
        with (String.String "&" ("token=" +:+ token s)).
      rewrite Split_app. f_equal. by apply Split_encoded. }
  unfold with_query. subst q. rewrite (Encode_nonempty _ Hne). simpl negb.
  cbv iota. rewrite request_url_eq.
  rewrite !Contains_byte_app.
  change (Strings.Contains "?" "?") with true.
  rewrite !orb_true_r, orb_true_l || rewrite ?orb_true_r.
  rewrite !string_app_assoc. done.
Qed.

Lemma deals_filter_token (f : ListDealsFilterRequest.t) :
  ListDealsFilterRequest.Token f ≠ "" →
  values_under (Reflect.Fields (ListDealsFilterRequest.ValueOf f)) "token" =
  [ListDealsFilterRequest.Token f].
Proof.
  intros Htok. unfold ListDealsFilterRequest.ValueOf, Reflect.Fields.
  rewrite !values_under_string_field by done.
  rewrite decide_True by done. rewrite (decide_False (P:=_ = "")) by done.
  repeat (rewrite decide_False by done). done.
Qed.

Lemma contacts_filter_token (f : ListContactsFilterRequest.t) :
  ListContactsFilterRequest.Token f ≠ "" →
  values_under (Reflect.Fields (ListContactsFilterRequest.ValueOf f)) "token" =
  [ListContactsFilterRequest.Token f].
Proof.
  intros Htok. unfold ListContactsFilterRequest.ValueOf, Reflect.Fields.
  rewrite !values_under_string_field by done.
  rewrite decide_True by done. rewrite (decide_False (P:=_ = "")) by done.
  repeat (rewrite decide_False by done). done.
Qed.

End ClaimFacts.

(** * Facts about the calls *)

Section CallFacts.

Context `{W : World}.

Lemma wrapper_outcome {A} `{Json A} what rejected s ctx reqBody method
    endpoint :
  wrapper (A:=A) what rejected s ctx reqBody method endpoint =
  outcome (A:=A) what rejected s ctx reqBody method endpoint.
Proof.
  unfold wrapper, call, outcome, marshalled, before_send.
  destruct reqBody as [[B J x]|].
  - rewrite request_body. destruct (Marshal x) as [bytes|err]; [|done].
    destruct (NewRequest_error method _); [done|]. cbv zeta.
    destruct (httpClient s _) as [resp|err]; [|done].
    destruct (rejected (StatusCode resp)) eqn:Hst.
    + run_io. rewrite respond_rejected by done. done.
    + run_io. rewrite respond_accepted by done. done.
  - rewrite request_nil.
    destruct (NewRequest_error method _); [done|]. cbv zeta.
    destruct (httpClient s _) as [resp|err]; [|done].
    destruct (rejected (StatusCode resp)) eqn:Hst.
    + run_io. rewrite respond_rejected by done. done.
    + run_io. rewrite respond_accepted by done. done.
Qed.

Lemma wrapper_sends {A} `{Json A} what rejected s ctx reqBody method
    endpoint bytes :
  marshalled reqBody = Ok bytes →
  NewRequest_error method (request_url s endpoint) = None →
  EvDo (outgoing s ctx method endpoint bytes) ∈
  (wrapper (A:=A) what rejected s ctx reqBody method endpoint).1.
Proof.
  intros Hm Hn. rewrite wrapper_outcome. unfold outcome.
  rewrite Hm, Hn. cbv zeta.
  destruct (httpClient s _) as [resp|err]; [|set_solver].
  destruct (rejected (StatusCode resp)); set_solver.
Qed.

(** A wrapper whose request the transport answered with a status it
    does not accept. *)
Lemma wrapper_answer_rejected {A} `{Json A} what rejected s ctx reqBody
    method endpoint bytes resp :
  Strings.all (isnt "%") what = true →
  marshalled reqBody = Ok bytes →
  answered s ctx method endpoint bytes resp →
  rejected (StatusCode resp) = true →
  api_rejected (wrapper (A:=A) what rejected s ctx reqBody method endpoint)
    what resp.
Proof.
  intros Hw Hm [Hn Hresp] Hst.
  eapply wrapper_rejected; [done|by apply wrapper_sends|done|done].
Qed.

(** A wrapper whose request the transport answered with a status it
    accepts. *)
Lemma wrapper_answer_accepted {A} `{Json A} what rejected s ctx reqBody
    method endpoint bytes resp :
  Strings.all (isnt "%") what = true →
  marshalled reqBody = Ok bytes →
  answered s ctx method endpoint bytes resp →
  rejected (StatusCode resp) = false →
  decoder_decides
    (wrapper (A:=A) what rejected s ctx reqBody method endpoint) what resp.
Proof.
  intros Hw Hm [Hn Hresp] Hst. unfold decoder_decides.
  destruct (Decode (Body resp)) as [payload|cause] eqn:Hdec.
  - eapply wrapper_decoded; [by apply wrapper_sends|done|done|done].
  - eapply wrapper_decode_failed;
      [done|by apply wrapper_sends|done|done|done].
Qed.

Lemma marshalled_body {B} `{Json B} (x : B) bytes :
  Marshal x = Ok bytes → marshalled (Some (interface x)) = Ok (Some bytes).
Proof. intros Hm. simpl. by rewrite Hm. Qed.

Lemma run_call_wrapper s ctx (c : Call) :
  run_call s ctx c =
  wrapper (H:=call_json c) (call_what c) (call_rejected c) s ctx
    (call_body c) (call_method c) (call_endpoint c).
Proof.
  destruct c; simpl.
  - apply ListDealsFilter_wrapper.
  - apply CreateDeal_wrapper.
  - apply UpdateDeal_wrapper.
  - apply ListContactsFilter_wrapper.
  - apply CreateContact_wrapper.
  - apply UpdateContact_wrapper.
Qed.

(** Every wrapper follows the paths of [outcome]. *)
Lemma run_call_outcome s ctx (c : Call) :
  run_call s ctx c =
  outcome (H:=call_json c) (call_what c) (call_rejected c) s ctx
    (call_body c) (call_method c) (call_endpoint c).
Proof. by rewrite run_call_wrapper, wrapper_outcome. Qed.

Lemma call_rejected_accepts (c : Call) (status : Z) :
  call_rejected c status = negb (call_accepts c status).
Proof.
  destruct c; simpl; unfold not_ok, not_ok_nor_created; try done;
    by rewrite negb_orb.
Qed.

Lemma call_what_plain (c : Call) :
  Strings.all (isnt "%") (call_what c) = true.
Proof. by destruct c. Qed.

End CallFacts.

Section CallPaths.

Context `{W : World}.

Lemma in_before_send reqBody (ev : Event) :
  ev ∈ before_send reqBody → ev = EvMarshal.
Proof. destruct reqBody; simpl; set_solver. Qed.

Lemma run_call_path s ctx (c : Call) : path s ctx c (run_call s ctx c).
Proof.
  rewrite run_call_outcome. unfold outcome.
  destruct (marshalled (call_body c)) as [bytes|cause] eqn:Hm;
    [|by apply path_marshal].
  destruct (NewRequest_error _ _) as [err|] eqn:Hn;
    [by eapply path_refused|].
  cbv zeta. fold (call_request s ctx c bytes).
  destruct (httpClient s _) as [resp|cause] eqn:Hd;
    [|by eapply path_transport].
  rewrite call_rejected_accepts.
  destruct (call_accepts c (StatusCode resp)) eqn:Hst; simpl.
  - destruct (Decode (Body resp)) as [x|err] eqn:Hdec.
    + by eapply path_decoded.
    + by eapply path_undecoded.
  - destruct (read_error (Body resp)) as [readErr|] eqn:Hrd.
    + by eapply path_unread.
    + by eapply path_rejected.
Qed.

Lemma filter_do_before_send reqBody :
  List.filter is_do (before_send reqBody) = [].
Proof. by destruct reqBody. Qed.

Lemma run_call_sends (s : Client) (ctx : Ctx) (c : Call) bytes :
  marshalled (call_body c) = Ok bytes →
  NewRequest_error (call_method c) (request_url s (call_endpoint c)) =
  None →
  List.filter is_do (run_call s ctx c).1 =
  [EvDo (call_request s ctx c bytes)].
Proof.
  intros Hm Hn. pose proof (run_call_path s ctx c) as Hp.
  remember (run_call s ctx c) as r eqn:Hr.
  destruct Hp; try congruence; simpl;
    rewrite List.filter_app, filter_do_before_send; simpl; congruence.
Qed.

End CallPaths.

(** * More facts about the encoder *)

Section EncoderMore.

Import Reflect.
Implicit Types (fields : list (StructField * Value)).

Lemma key_le_le p q : Url.key_le p q ↔ String.le p.1 q.1.
Proof. unfold Url.key_le, String.le. by rewrite Is_true_true. Qed.

Lemma key_le_total : Total Url.key_le.
Proof.
  intros p q. rewrite !key_le_le. apply String.le_total.
Qed.

Lemma key_le_trans : Transitive Url.key_le.
Proof.
  intros p q r. rewrite !key_le_le. apply String.le_po.
Qed.

Lemma entries_sorted (v : gmap string (list string)) :
  StronglySorted Url.key_le (Url.entries v).
Proof.
  apply StronglySorted_merge_sort; [apply key_le_trans|apply key_le_total].
Qed.

Lemma flatten_sorted (es : list (string * list string)) :
  StronglySorted Url.key_le es →
  StronglySorted String.le (flatten es).*1.
Proof.
  induction 1 as [|[k vs] es Hes IH Hall]; [constructor|].
  unfold flatten. rewrite bind_cons, fmap_app. fold (flatten es).
  apply StronglySorted_app_2; [| |done].
  - intros k1 k2 H1 H2. simpl in H1.
    rewrite <- list_fmap_compose in H1.
    apply list_elem_of_fmap in H1 as (v & -> & _). simpl.
    apply list_elem_of_fmap in H2 as ([k' v'] & -> & H2).
    unfold flatten in H2. apply list_elem_of_bind in H2 as ([k'' vs'] & H2 & H3).
    simpl in H2. apply list_elem_of_fmap in H2 as (v'' & [= -> ->] & _).
    rewrite Forall_forall in Hall. specialize (Hall _ H3).
    by apply key_le_le in Hall.
  - simpl. rewrite <- list_fmap_compose. clear.
    induction vs as [|v vs IH]; [constructor|]. simpl. constructor; [done|].
    apply Forall_forall. intros k' Hk'.
    apply list_elem_of_fmap in Hk' as (v' & -> & _). simpl.
    apply String.le_po.
Qed.

Lemma pairs_sorted (v : gmap string (list string)) :
  StronglySorted String.le (Url.pairs v).*1.
Proof. apply flatten_sorted, entries_sorted. Qed.

Lemma query_params_values fields fields' :
  query_params fields = query_params fields' ↔
  ∀ k, values_under fields k = values_under fields' k.
Proof.
  split.
  - intros Hm k. by rewrite <- !lookup_query_params, Hm.
  - intros Hk. apply populated_eq; try apply populated_query_params.
    intros k. by rewrite !lookup_query_params.
Qed.

Lemma values_under_nil fields :
  (∀ k, values_under fields k = []) ↔
  ∀ f, f ∈ fields → contribution f = [].
Proof.
  induction fields as [|g fields IH].
  - split; [by intros _ f Hf%elem_of_nil|done].
  - split.
    + intros Hk f Hf. apply elem_of_cons in Hf as [->|Hf].
      * specialize (Hk (param_name g.1)). rewrite values_under_cons in Hk.
        apply app_eq_nil in Hk as [Hg _]. by rewrite decide_True in Hg.
      * apply IH; [|done]. intros k. specialize (Hk k).
        rewrite values_under_cons in Hk. by apply app_eq_nil in Hk as [_ ?].
    + intros Hc k. rewrite values_under_cons.
      rewrite (proj2 IH) by (intros; apply Hc; by right).
      rewrite (Hc g) by left. by destruct (decide _).
Qed.

Lemma query_params_empty fields :
  query_params fields = ∅ ↔ ∀ f, f ∈ fields → contribution f = [].
Proof.
  rewrite <- values_under_nil.
  change (∅ : gmap string (list string)) with (query_params []).
  apply query_params_values.
Qed.

Lemma pairs_empty (v : gmap string (list string)) :
  populated v → Url.pairs v = [] → v = ∅.
Proof.
  intros Hv Hp. rewrite <- (from_pairs_pairs v Hv), Hp. done.
Qed.

Lemma Encode_empty_iff (v : gmap string (list string)) :
  populated v → Url.Encode v = "" ↔ v = ∅.
Proof.
  intros Hv. split; [|by intros ->].
  intros He. apply pairs_empty; [done|].
  destruct (Url.pairs v) as [|p ps] eqn:Hp; [done|].
  assert (Url.pairs v ≠ []) as Hne by (by rewrite Hp).
  apply Encode_nonempty in Hne. by rewrite He in Hne.
Qed.

Lemma all_query_byte_escape (s : string) :
  Strings.all query_byte (Url.QueryEscape s) = true.
Proof.
  induction s as [|c s IH]; [done|]. simpl.
  destruct (Url.shouldEscape c) eqn:Hc.
  - destruct (Ascii.eqb c " "); simpl; [done|]. rewrite IH.
    assert (query_byte (Url.hexdigit (N.shiftr (N_of_ascii c) 4)) = true
            ∧ query_byte (Url.hexdigit (N.land (N_of_ascii c) 15)) = true)
      as [-> ->]; [|done].
    clear. destruct c as [[] [] [] [] [] [] [] []]; by vm_compute.
  - simpl. rewrite IH. unfold query_byte. by rewrite Hc.
Qed.

Lemma all_query_byte_component p :
  Strings.all query_byte (component p) = true.
Proof.
  unfold component. by rewrite !all_app, !all_query_byte_escape.
Qed.

Lemma all_query_byte_foldl buf ps :
  Strings.all query_byte buf = true →
  Strings.all query_byte (foldl Url.write_pair buf ps) = true.
Proof.
  revert buf. induction ps as [|p ps IH]; intros buf Hbuf; [done|].
  simpl. apply IH. unfold Url.write_pair.
  fold (component p). destruct (String.eqb buf "").
  - rewrite string_app_nil_l. apply all_query_byte_component.
  - by rewrite !all_app, Hbuf, all_query_byte_component.
Qed.

Lemma all_query_byte_Encode (v : gmap string (list string)) :
  Strings.all query_byte (Url.Encode v) = true.
Proof. by apply all_query_byte_foldl. Qed.

Lemma all_no_byte (s : string) (c : ascii) :
  Strings.all query_byte s = true → query_byte c = false →
  Strings.Contains s (String.String c "") = false.
Proof.
  intros Hs Hc. rewrite Contains_byte. apply negb_false_iff.
  induction s as [|x s IH]; [done|]. simpl in *.
  apply andb_true_iff in Hs as [Hx Hs]. rewrite (IH Hs), andb_true_r.
  unfold isnt. apply negb_true_iff, Ascii.eqb_neq. intros ->. congruence.
Qed.

Lemma values_under_app fields1 fields2 k :
  values_under (fields1 ++ fields2) k =
  values_under fields1 k ++ values_under fields2 k.
Proof. unfold values_under. by rewrite bind_app. Qed.

Lemma values_under_absent fields k :
  k ∉ param_names fields → values_under fields k = [].
Proof.
  unfold param_names, values_under.
  induction fields as [|f fields IH]; [done|]. rewrite fmap_cons.
  intros Hk. apply not_elem_of_cons in Hk as [Hne Hk].
  rewrite bind_cons, (IH Hk), decide_False by done. done.
Qed.

Lemma values_under_perm fields fields' k :
  fields ≡ₚ fields' → NoDup (param_names fields) →
  values_under fields k = values_under fields' k.
Proof.
  induction 1 as [|f l l' Hp IH|f g l|l1 l2 l3 H12 IH12 H23 IH23];
    intros Hnd.
  - done.
  - rewrite !values_under_cons. f_equal. apply IH.
    unfold param_names in *. rewrite fmap_cons in Hnd.
    by apply NoDup_cons in Hnd as [_ ?].
  - rewrite !values_under_cons.
    unfold param_names in Hnd. rewrite !fmap_cons in Hnd.
    apply NoDup_cons in Hnd as [Hf _].
    apply not_elem_of_cons in Hf as [Hne _].
    destruct (decide (param_name g.1 = k)) as [<-|];
      destruct (decide (param_name f.1 = param_name g.1)) as [Heq|];
      try destruct (decide (param_name f.1 = k)); try done;
      by rewrite ?List.app_nil_r.
  - rewrite IH12 by done. apply IH23.
    unfold param_names in *. by rewrite <- H12.
Qed.

Lemma contribution_at_zero f : at_zero_value f.2 → contribution f = [].
Proof.
  rewrite contribution_cases. destruct f as [ft [|b|t i|t u|s|elems|fs|t x]];
    simpl; try done.
  - by intros ->.
  - intros ->. by rewrite decide_True.
  - intros ->. by rewrite decide_True.
  - by intros ->.
Qed.

Lemma values_under_sublist f fields :
  f ∈ fields → sublist (contribution f) (values_under fields (param_name f.1)).
Proof.
  induction fields as [|g fields IH]; [by intros ?%elem_of_nil|].
  rewrite values_under_cons. intros [->|Hf]%elem_of_cons.
  - rewrite decide_True by done. apply sublist_inserts_r. done.
  - apply sublist_inserts_l. auto.
Qed.

Lemma StructToQueryString_Ok v q :
  StructToQueryString v = Ok q →
  ∃ fields, v = VStruct fields ∧ q = Url.Encode (query_params fields).
Proof.
  destruct v as [|b|t i|t u|s|elems|fields|t x]; try destruct t;
    intros [= <-]. eauto.
Qed.

End EncoderMore.

Section FilterFacts.

Import Reflect.

Lemma string_field_cancel name form query v v' fields fields' :
  query ≠ "" → query ≠ "-" →
  query ∉ param_names fields → query ∉ param_names fields' →
  (∀ k, values_under (string_field name form query v :: fields) k =
        values_under (string_field name form query v' :: fields') k) →
  v = v' ∧ ∀ k, values_under fields k = values_under fields' k.
Proof.
  intros H1 H2 Hf Hf' Hk.
  assert (v = v') as <-.
  { specialize (Hk query). rewrite !values_under_string_field in Hk by done.
    destruct (decide (query = query)); [|done].
    rewrite !values_under_absent, !List.app_nil_r in Hk by done.
    destruct (decide (v = "")) as [->|], (decide (v' = "")) as [->|];
      congruence. }
  split; [done|]. intros k. specialize (Hk k).
  rewrite !values_under_string_field in Hk by done.
  by apply app_inv_head in Hk.
Qed.

Lemma with_query_nonempty endpoint q :
  q ≠ "" → with_query endpoint q = endpoint +:+ "?" +:+ q.
Proof.
  intros Hq. unfold with_query. by destruct (String.eqb_spec q "").
Qed.

Lemma with_query_url `{W : World} (s : Client) endpoint q :
  q ≠ "" →
  request_url s (with_query endpoint q) =
  baseUrl s +:+ "/" +:+ endpoint +:+ "?" +:+ q +:+ "&token=" +:+ token s.
Proof.
  intros Hq. unfold with_query.
  destruct (String.eqb_spec q "") as [->|_]; [done|]. simpl negb. cbv iota.
  rewrite request_url_eq, !Contains_byte_app.
  change (Strings.Contains "?" "?") with true.
  rewrite !orb_true_r, orb_true_l || rewrite ?orb_true_r.
  by rewrite !string_app_assoc.
Qed.

Lemma not_in_param_names q fields :
  forallb (fun f => negb (String.eqb (param_name f.1) q)) fields = true →
  q ∉ param_names fields.
Proof.
  unfold param_names. induction fields as [|f fields IH]; simpl.
  - intros _. apply not_elem_of_nil.
  - intros [Hf H]%andb_true_iff. apply not_elem_of_cons. split; [|auto].
    apply negb_true_iff, String.eqb_neq in Hf. congruence.
Qed.

Ltac cancel_fields H :=
  repeat (apply string_field_cancel in H as [? H];
          [|done|done|apply not_in_param_names; vm_compute; reflexivity
                      |apply not_in_param_names; vm_compute; reflexivity]).

Lemma deals_filter_inj (f g : ListDealsFilterRequest.t) :
  (∀ k, values_under (Fields (ListDealsFilterRequest.ValueOf f)) k =
        values_under (Fields (ListDealsFilterRequest.ValueOf g)) k) →
  f = g.
Proof.
  intros H. unfold ListDealsFilterRequest.ValueOf, Fields in H.
  cancel_fields H. clear H. destruct f, g. simpl in *. subst. reflexivity.
Qed.

Lemma contacts_filter_inj (f g : ListContactsFilterRequest.t) :
  (∀ k, values_under (Fields (ListContactsFilterRequest.ValueOf f)) k =
        values_under (Fields (ListContactsFilterRequest.ValueOf g)) k) →
  f = g.
Proof.
  intros H. unfold ListContactsFilterRequest.ValueOf, Fields in H.
  cancel_fields H. clear H. destruct f, g. simpl in *. subst. reflexivity.
Qed.

Lemma Encode_inj v v' :
  populated v → populated v' → Url.Encode v = Url.Encode v' → v = v'.
Proof.
  intros Hv Hv' He.
  pose proof (ParseQuery_Encode v Hv) as H1.
  pose proof (ParseQuery_Encode v' Hv') as H2.
  rewrite He in H1. congruence.
Qed.

Lemma StructToQueryString_inj fields fields' :
  StructToQueryString (VStruct fields) =
  StructToQueryString (VStruct fields') →
  ∀ k, values_under fields k = values_under fields' k.
Proof.
  rewrite !StructToQueryString_struct. intros [= He].
  apply query_params_values, Encode_inj;
    [apply populated_query_params..|done].
Qed.

End FilterFacts.

Section ListingFacts.

Import Reflect.
Context `{W : World}.

Lemma Sprintf_one (pre post id : string) :
  Strings.all (isnt "%") pre = true → Strings.all (isnt "%") post = true →
  Sprintf (pre +:+ "%s" +:+ post) [OpStr id] = pre +:+ id +:+ post.
Proof.
  intros Hpre Hpost. unfold Sprintf. rewrite format_text by done.
  cbn [fst]. f_equal.
  change ("%s" +:+ post) with (String.String "%" (String.String "s" post)).
  cbn [format]. change (Ascii.eqb "%" "%") with true.
  change (Ascii.eqb "s" "%") with false. cbv iota.
  rewrite <- (string_app_nil_r post) at 1. rewrite format_text by done.
  destruct (format "" []) as [t ws] eqn:Hf. simpl in Hf. simplify_eq.
  cbn [fst operand_text]. by rewrite string_app_nil_r.
Qed.

Lemma nonzero_filter_query fields fields0 :
  (∀ f, f ∈ fields0 → contribution f = []) →
  Url.Encode (query_params fields) = "" →
  ∀ k, values_under fields k = values_under fields0 k.
Proof.
  intros H0 He. apply query_params_values.
  apply Encode_empty_iff in He; [|apply populated_query_params].
  rewrite He. symmetry. by apply query_params_empty.
Qed.

Lemma zero_string_fields (f : StructField * Value) fields :
  f ∈ fields → Forall (fun g => g.2 = VString "") fields →
  contribution f = [].
Proof.
  intros Hin Hall. rewrite Forall_forall in Hall. specialize (Hall _ Hin).
  destruct f as [ft v]. simpl in Hall. subst v.
  by rewrite contribution_string, decide_True.
Qed.

Lemma deals_filter_query (f : ListDealsFilterRequest.t) :
  Url.Encode (query_params (Fields (ListDealsFilterRequest.ValueOf f))) = ""
  ↔ f = empty_deals_filter.
Proof.
  split; [|by intros ->].
  intros He. apply deals_filter_inj.
  apply nonzero_filter_query; [|done].
  intros g Hg. eapply zero_string_fields; [done|].
  repeat constructor.
Qed.

Lemma contacts_filter_query (f : ListContactsFilterRequest.t) :
  Url.Encode (query_params (Fields (ListContactsFilterRequest.ValueOf f)))
  = "" ↔ f = empty_contacts_filter.
Proof.
  split; [|by intros ->].
  intros He. apply contacts_filter_inj.
  apply nonzero_filter_query; [|done].
  intros g Hg. eapply zero_string_fields; [done|].
  repeat constructor.
Qed.

End ListingFacts.

(** * The claims *)

Import Reflect.

(** C1: when the transport answers the request of a call with a status
    that is not one the wrapper accepts, the call returns an error of the
    class [ErrApiReturnedError] whose text carries the status and the body
    as read, and which wraps [errors.New(body)]; the body is never decoded;
    when the body cannot be read the error is of the class
    [ErrReadResponseBody] and wraps the read error.  The six wrappers: the
    two listing calls and the two update calls accept 200, the two creation
    calls 200 and 201. *)
Theorem rejected_status_returns_api_error `{W : World} (s : Client)
    (ctx : Ctx) (resp : Response) :
  (∀ filter q,
     StructToQueryString (ListDealsFilterRequest.ValueOf filter) = Ok q →
     answered s ctx MethodGet (with_query listDealsEndpoint q) None resp →
     StatusCode resp ≠ StatusOK →
     api_rejected (ListDealsFilter s ctx filter) "list deals" resp) ∧
  (∀ deal bytes,
     Marshal deal = Ok bytes →
     answered s ctx MethodPost createDealEndpoint (Some bytes) resp →
     StatusCode resp ≠ StatusOK → StatusCode resp ≠ StatusCreated →
     api_rejected (CreateDeal s ctx deal) "create deal" resp) ∧
  (∀ dealID deal bytes,
     Marshal deal = Ok bytes →
     answered s ctx MethodPut (Sprintf updateDealByIDEndpoint [OpStr dealID])
       (Some bytes) resp →
     StatusCode resp ≠ StatusOK →
     api_rejected (UpdateDeal s ctx dealID deal) "update deal" resp) ∧
  (∀ filter q,
     StructToQueryString (ListContactsFilterRequest.ValueOf filter) = Ok q →
     answered s ctx MethodGet (with_query listContactsEndpoint q) None resp →
     StatusCode resp ≠ StatusOK →
     api_rejected (ListContactsFilter s ctx filter) "list contacts" resp) ∧
  (∀ contact bytes,
     Marshal contact = Ok bytes →
     answered s ctx MethodPost createContactEndpoint (Some bytes) resp →
     StatusCode resp ≠ StatusOK → StatusCode resp ≠ StatusCreated →
     api_rejected (CreateContact s ctx contact) "create contact" resp) ∧
  (∀ contactID contact bytes,
     Marshal contact = Ok bytes →
     answered s ctx MethodPut
       (Sprintf updateContactByIDEndpoint [OpStr contactID]) (Some bytes)
       resp →
     StatusCode resp ≠ StatusOK →
     api_rejected (UpdateContact s ctx contactID contact) "update contact"
       resp).
Proof.
  split_and!.
  - intros filter q [= <-] Hans Hst. rewrite ListDealsFilter_wrapper.
    eapply wrapper_answer_rejected; eauto using not_ok_true.
  - intros deal bytes Hm Hans Hst1 Hst2. rewrite CreateDeal_wrapper.
    eapply wrapper_answer_rejected;
      eauto using not_ok_nor_created_true, marshalled_body.
  - intros dealID deal bytes Hm Hans Hst. rewrite UpdateDeal_wrapper.
    eapply wrapper_answer_rejected; eauto using not_ok_true, marshalled_body.
  - intros filter q [= <-] Hans Hst. rewrite ListContactsFilter_wrapper.
    eapply wrapper_answer_rejected; eauto using not_ok_true.
  - intros contact bytes Hm Hans Hst1 Hst2. rewrite CreateContact_wrapper.
    eapply wrapper_answer_rejected;
      eauto using not_ok_nor_created_true, marshalled_body.
  - intros contactID contact bytes Hm Hans Hst.
    rewrite UpdateContact_wrapper.
    eapply wrapper_answer_rejected; eauto using not_ok_true, marshalled_body.
Qed.

(** The listing of contacts answered [404 not found]. *)
Lemma rejected_status_returns_api_error_witness :
  let resp := sample_response 404 (readable "not found") in
  let s := sample_client sample_base (Ok resp) in
  (ListContactsFilter s () sample_contacts_filter).2 =
  Err (WrapErrors
         "api returned an error status: failed to list contacts (status: 404): not found"
         [Sentinel ErrApiReturnedError; ErrorString "not found"]).
Proof.
  intros resp s.
  destruct (rejected_status_returns_api_error s () resp)
    as (_ & _ & _ & H & _).
  destruct (H sample_contacts_filter "limit=5&page=1&token=ftok")
    as [_ (e & Hr & -> & _)].
  - reflexivity.
  - split; reflexivity.
  - vm_compute. discriminate.
  - exact Hr.
Defined.

(** C2, as the code has it: when the transport answers the request of a
    call with a status the wrapper accepts, the body goes to
    [json.NewDecoder(resp.Body).Decode]; when that returns an error the
    call returns an error of the class [ErrDecodeResponse] that wraps it,
    and no payload; when it returns a payload the call returns that
    payload.  The decoder, not the validity of the whole body, decides. *)
Theorem undecodable_body_returns_decode_error `{W : World} (s : Client)
    (ctx : Ctx) (resp : Response) :
  (∀ filter q,
     StructToQueryString (ListDealsFilterRequest.ValueOf filter) = Ok q →
     answered s ctx MethodGet (with_query listDealsEndpoint q) None resp →
     StatusCode resp = StatusOK →
     decoder_decides (ListDealsFilter s ctx filter) "list deals" resp) ∧
  (∀ deal bytes,
     Marshal deal = Ok bytes →
     answered s ctx MethodPost createDealEndpoint (Some bytes) resp →
     StatusCode resp = StatusOK ∨ StatusCode resp = StatusCreated →
     decoder_decides (CreateDeal s ctx deal) "create deal" resp) ∧
  (∀ dealID deal bytes,
     Marshal deal = Ok bytes →
     answered s ctx MethodPut (Sprintf updateDealByIDEndpoint [OpStr dealID])
       (Some bytes) resp →
     StatusCode resp = StatusOK →
     decoder_decides (UpdateDeal s ctx dealID deal) "update deal" resp) ∧
  (∀ filter q,
     StructToQueryString (ListContactsFilterRequest.ValueOf filter) = Ok q →
     answered s ctx MethodGet (with_query listContactsEndpoint q) None resp →
     StatusCode resp = StatusOK →
     decoder_decides (ListContactsFilter s ctx filter) "list contacts" resp) ∧
  (∀ contact bytes,
     Marshal contact = Ok bytes →
     answered s ctx MethodPost createContactEndpoint (Some bytes) resp →
     StatusCode resp = StatusOK ∨ StatusCode resp = StatusCreated →
     decoder_decides (CreateContact s ctx contact) "create contact" resp) ∧
  (∀ contactID contact bytes,
     Marshal contact = Ok bytes →
     answered s ctx MethodPut
       (Sprintf updateContactByIDEndpoint [OpStr contactID]) (Some bytes)
       resp →
     StatusCode resp = StatusOK →
     decoder_decides (UpdateContact s ctx contactID contact) "update contact"
       resp).
Proof.
  split_and!.
  - intros filter q [= <-] Hans Hst. rewrite ListDealsFilter_wrapper.
    eapply wrapper_answer_accepted; eauto using not_ok_false.
  - intros deal bytes Hm Hans Hst. rewrite CreateDeal_wrapper.
    eapply wrapper_answer_accepted;
      eauto using not_ok_nor_created_false, marshalled_body.
  - intros dealID deal bytes Hm Hans Hst. rewrite UpdateDeal_wrapper.
    eapply wrapper_answer_accepted; eauto using not_ok_false, marshalled_body.
  - intros filter q [= <-] Hans Hst. rewrite ListContactsFilter_wrapper.
    eapply wrapper_answer_accepted; eauto using not_ok_false.
  - intros contact bytes Hm Hans Hst. rewrite CreateContact_wrapper.
    eapply wrapper_answer_accepted;
      eauto using not_ok_nor_created_false, marshalled_body.
  - intros contactID contact bytes Hm Hans Hst.
    rewrite UpdateContact_wrapper.
    eapply wrapper_answer_accepted; eauto using not_ok_false, marshalled_body.
Qed.

(** The listing of deals answered [200] with a body that is not JSON. *)
Lemma undecodable_body_returns_decode_error_witness :
  let resp := sample_response 200 (readable "<html>") in
  let s := decoding_client sample_base (Ok resp) in
  (ListDealsFilter s () sample_deals_filter).2 =
  Err (WrapErrors
         "failed to decode api response: error decoding list deals response: invalid character"
         [Sentinel ErrDecodeResponse; ErrorString "invalid character"]).
Proof.
  intros resp s.
  destruct (undecodable_body_returns_decode_error s () resp) as (H & _).
  destruct (H sample_deals_filter
              "direction=asc&limit=5&order=name&page=1&token=ftok")
    as [(e & Hr & -> & _) _].
  - reflexivity.
  - split; reflexivity.
  - reflexivity.
  - exact Hr.
Defined.

(** C2 as the claim states it fails: the decoder reads the first JSON
    value of the body and no further.  The body [{}<html>] is not valid
    JSON, for no type; the listing of deals answered [200] with it returns
    a payload, and the payload is the zero value. *)
Lemma text_after_the_first_json_value_is_not_read :
  let body := readable "{}<html>" in
  let s := decoding_client sample_base (Ok (sample_response 200 body)) in
  EncodingJson.Valid (content body) = false ∧
  EncodingJson.ValidFor (content body) = false ∧
  ListDealsFilter s () sample_deals_filter =
  ([EvDo (outgoing s () MethodGet
            "deals?direction=asc&limit=5&order=name&page=1&token=ftok" None);
    EvDecode; EvClose],
   Ok EncodingJson.zero_value).
Proof. intros body s. split_and!; reflexivity. Qed.

(** C3, as the code has it: a request body that does not marshal makes the
    call return, before anything is sent, an error of the class
    [ErrRequestFailed] that wraps the error of [json.Marshal]; this is the
    class of a failure of the transport, and the package has no class of
    its own for serialization.  The four wrappers that carry a body. *)
Theorem marshal_failure_returns_request_failed `{W : World} (s : Client)
    (ctx : Ctx) (cause : error) :
  (∀ deal,
     Marshal (A:=CreateDealRequest) deal = Err cause →
     (CreateDeal s ctx deal).1 = [EvMarshal] ∧
     request_failed (CreateDeal s ctx deal) "create deal" cause) ∧
  (∀ dealID deal,
     Marshal (A:=UpdateDealRequest) deal = Err cause →
     (UpdateDeal s ctx dealID deal).1 = [EvMarshal] ∧
     request_failed (UpdateDeal s ctx dealID deal) "update deal" cause) ∧
  (∀ contact,
     Marshal (A:=CreateContactRequest) contact = Err cause →
     (CreateContact s ctx contact).1 = [EvMarshal] ∧
     request_failed (CreateContact s ctx contact) "create contact" cause) ∧
  (∀ contactID contact,
     Marshal (A:=UpdateContactRequest) contact = Err cause →
     (UpdateContact s ctx contactID contact).1 = [EvMarshal] ∧
     request_failed (UpdateContact s ctx contactID contact) "update contact"
       cause) ∧
  (∀ deal req,
     EvDo req ∈ (CreateDeal s ctx deal).1 → httpClient s req = Err cause →
     request_failed (CreateDeal s ctx deal) "create deal" cause) ∧
  (∀ dealID deal req,
     EvDo req ∈ (UpdateDeal s ctx dealID deal).1 →
     httpClient s req = Err cause →
     request_failed (UpdateDeal s ctx dealID deal) "update deal" cause) ∧
  (∀ contact req,
     EvDo req ∈ (CreateContact s ctx contact).1 →
     httpClient s req = Err cause →
     request_failed (CreateContact s ctx contact) "create contact" cause) ∧
  (∀ contactID contact req,
     EvDo req ∈ (UpdateContact s ctx contactID contact).1 →
     httpClient s req = Err cause →
     request_failed (UpdateContact s ctx contactID contact) "update contact"
       cause).
Proof.
  split_and!.
  - intros deal Hm. rewrite CreateDeal_wrapper.
    rewrite (wrapper_marshal_failed _ _ _ _ _ _ _ cause) by done.
    split; [done|by apply classified_intro].
  - intros dealID deal Hm. rewrite UpdateDeal_wrapper.
    rewrite (wrapper_marshal_failed _ _ _ _ _ _ _ cause) by done.
    split; [done|by apply classified_intro].
  - intros contact Hm. rewrite CreateContact_wrapper.
    rewrite (wrapper_marshal_failed _ _ _ _ _ _ _ cause) by done.
    split; [done|by apply classified_intro].
  - intros contactID contact Hm. rewrite UpdateContact_wrapper.
    rewrite (wrapper_marshal_failed _ _ _ _ _ _ _ cause) by done.
    split; [done|by apply classified_intro].
  - intros deal req. rewrite CreateDeal_wrapper.
    by apply wrapper_transport_failed.
  - intros dealID deal req. rewrite UpdateDeal_wrapper.
    by apply wrapper_transport_failed.
  - intros contact req. rewrite CreateContact_wrapper.
    by apply wrapper_transport_failed.
  - intros contactID contact req. rewrite UpdateContact_wrapper.
    by apply wrapper_transport_failed.
Qed.

(** A deal that does not marshal. *)
Lemma marshal_failure_returns_request_failed_witness :
  let s := sample_client sample_base
             (Ok (sample_response 200 (readable "{}"))) in
  CreateDeal s () "" =
  ([EvMarshal],
   Err (WrapErrors
          "http request execution failed: error making request to create deal: json: unsupported value"
          [Sentinel ErrRequestFailed; ErrorString "json: unsupported value"])).
Proof.
  intros s.
  destruct (marshal_failure_returns_request_failed s ()
              (ErrorString "json: unsupported value")) as (H & _).
  destruct (H "" eq_refl) as [Htr (e & Hr & -> & _)].
  destruct (CreateDeal s () "") as [tr r]. simpl in *. by subst.
Defined.

(** C3 as the claim states it fails: the error of a body that does not
    marshal is of the class of the transport failures, and of no other
    class. *)
Lemma marshal_failure_is_not_a_class_of_its_own :
  let s := sample_client sample_base
             (Ok (sample_response 200 (readable "{}"))) in
  Marshal (A:=@CreateDealRequest sample_world) "" =
  Err (ErrorString "json: unsupported value") ∧
  ∃ e, (CreateDeal s () "").2 = Err e ∧
       Is e (Sentinel ErrRequestFailed) = true ∧
       ∀ c, Is e (Sentinel c) = true → c = ErrRequestFailed.
Proof.
  intros s. split; [reflexivity|]. eexists. split; [reflexivity|].
  split; [reflexivity|]. by intros [].
Qed.




(** C5: the parameter name of a field is its [query] tag when the tag is
    present and is neither empty nor ["-"], and its declared name
    otherwise; a field writes under no other name; the values the decoded
    output has under a name are those of the fields with that parameter
    name, in order; a field with a tag that differs from its declared name
    is in the output under the tag and not under the declared name. *)
Theorem tag_names_the_parameter :
  (∀ ft, param_name ft = name_by_tag ft) ∧
  (∀ q f k, k ≠ name_by_tag f.1 → add_field q f !! k = q !! k) ∧
  (∀ fields, ∃ q m,
     StructToQueryString (VStruct fields) = Ok q ∧
     Url.ParseQuery q = (m, None) ∧
     ∀ k, default [] (m !! k) =
          fields ≫= (fun f => if decide (name_by_tag f.1 = k)
                              then contribution f else [])) ∧
  (∀ ft v,
     query_tag ft ≠ "" → query_tag ft ≠ "-" → query_tag ft ≠ Name ft →
     ∃ q m,
       StructToQueryString (VStruct [(ft, v)]) = Ok q ∧
       Url.ParseQuery q = (m, None) ∧
       m !! Name ft = None ∧
       default [] (m !! query_tag ft) = contribution (ft, v)).
Proof.
  split_and!.
  - apply param_name_by_tag.
  - intros q f k. rewrite <- param_name_by_tag. apply lookup_add_field_other.
  - intros fields. destruct (encoder_output fields) as (q & Hq & Hp & _).
    exists q, (query_params fields). split_and!; [done..|].
    intros k. rewrite lookup_query_params. unfold values_under.
    apply list_bind_ext; [|done]. intros f. by rewrite param_name_by_tag.
  - intros ft v H1 H2 H3.
    destruct (encoder_output [(ft, v)]) as (q & Hq & Hp & _).
    exists q, (query_params [(ft, v)]). split_and!; [done..| |].
    + apply lookup_populated_nil; [apply populated_query_params|].
      rewrite lookup_query_params. unfold values_under. simpl.
      rewrite param_name_by_tag. unfold name_by_tag.
      rewrite (decide_True (P:=_ ∧ _)) by done. by rewrite decide_False.
    + rewrite lookup_query_params. unfold values_under. simpl.
      rewrite param_name_by_tag. unfold name_by_tag.
      rewrite (decide_True (P:=_ ∧ _)) by done. rewrite decide_True by done.
      by rewrite List.app_nil_r.
Qed.

(** A field [Foo] tagged [custom]. *)
Lemma tag_names_the_parameter_witness :
  let ft := {| Name := "Foo"; Tag := [("query", "custom")] |} in
  ∃ q m,
    StructToQueryString (VStruct [(ft, VString "x")]) = Ok q ∧
    Url.ParseQuery q = (m, None) ∧
    m !! "Foo" = None ∧ default [] (m !! "custom") = ["x"].
Proof.
  intros ft. destruct tag_names_the_parameter as (_ & _ & _ & H).
  destruct (H ft (VString "x")) as (q & m & Hq & Hp & H1 & H2);
    [discriminate..|].
  exists q, m. split_and!; [exact Hq|exact Hp|exact H1|exact H2].
Defined.

(** C6: a struct whose text, integer, boolean and sequence fields are all
    at their zero value encodes to the empty string, without error; the
    loop body makes one [Add] per contributed value, and a field that
    contributes is a non-empty text (its value), a non-zero integer (its
    decimal text), a true boolean (the text ["true"]) or a non-empty
    sequence (one value per element). *)
Theorem zero_valued_struct_encodes_to_empty :
  (∀ fields,
     (∀ f, f ∈ fields → at_zero_value f.2) →
     StructToQueryString (VStruct fields) = Ok "") ∧
  (∀ q f,
     add_field q f =
     foldl (fun m v => Url.Add m (param_name f.1) v) q (contribution f)) ∧
  (∀ f,
     contribution f ≠ [] →
     match f.2 with
     | VString s => s ≠ "" ∧ contribution f = [s]
     | VInt _ i => i ≠ 0 ∧ contribution f = [Strconv.FormatInt i]
     | VBool b => b = true ∧ contribution f = ["true"]
     | VSlice elems => elems ≠ [] ∧ contribution f = Sprintf_v <$> elems
     | _ => False
     end).
Proof.
  split_and!.
  - intros fields Hz. rewrite StructToQueryString_struct.
    replace (query_params fields) with (∅ : gmap string (list string));
      [done|].
    symmetry. apply populated_eq;
      [apply populated_query_params|apply populated_empty|].
    intros k. rewrite lookup_query_params, lookup_empty. simpl.
    unfold values_under. induction fields as [|f fields IH]; [done|].
    rewrite bind_cons, IH by (intros; apply Hz; by right).
    destruct (decide (param_name f.1 = k)); [|done].
    rewrite contribution_cases. specialize (Hz f (list_elem_of_here _ _)).
    destruct f as [ft [|b|t i|t u|s|elems|fs|t text]]; simpl in *;
      by subst.
  - apply add_field_Add.
  - intros f. rewrite contribution_cases.
    destruct f as [ft [|b|t i|t u|s|elems|fs|t text]]; simpl; try done.
    + by destruct b.
    + by destruct (decide (i = 0)).
    + by destruct (decide (s = "")).
    + by destruct elems.
Qed.

(** A struct of four zero values, and a true boolean. *)
Lemma zero_valued_struct_encodes_to_empty_witness :
  StructToQueryString
    (VStruct
       [({| Name := "Q"; Tag := [("query", "q")] |}, VString "");
        ({| Name := "Page"; Tag := [("query", "page")] |}, VInt TInt 0);
        ({| Name := "Exact"; Tag := [] |}, VBool false);
        ({| Name := "Ids"; Tag := [("query", "id")] |}, VSlice [])]) = Ok "" ∧
  contribution ({| Name := "Exact"; Tag := [] |}, VBool true) = ["true"].
Proof.
  destruct zero_valued_struct_encodes_to_empty as (H1 & _ & H3). split.
  - apply H1. intros f Hf.
    repeat (apply elem_of_cons in Hf as [->|Hf]; [reflexivity|]).
    by apply elem_of_nil in Hf.
  - pose (f := ({| Name := "Exact"; Tag := [] |}, VBool true)).
    assert (contribution f ≠ []) as Hc by (vm_compute; discriminate).
    exact (proj2 (H3 f Hc)).
Defined.

(** C7, as the code has it: a field of a signed integer type of any width
    ([int], [int8], [int16], [int32], [int64]) is in the output exactly
    when its value is not zero, with the base-10 text of the value; a field
    of an unsigned integer type is never in the output. *)
Theorem signed_integer_field_is_encoded_in_base_10 (ft : StructField)
    (t : IntType) (i : Z) :
  contribution (ft, VInt t i) =
    (if decide (i = 0) then [] else [Strconv.FormatInt i]) ∧
  Strconv.ParseInt (Strconv.FormatInt i) = Some i ∧
  (∀ q, add_field q (ft, VInt t i) =
        if decide (i = 0) then q
        else Url.Add q (param_name ft) (Strconv.FormatInt i)) ∧
  (∃ q m,
     StructToQueryString (VStruct [(ft, VInt t i)]) = Ok q ∧
     Url.ParseQuery q = (m, None) ∧
     m !! param_name ft =
     if decide (i = 0) then None else Some [Strconv.FormatInt i]) ∧
  (∀ q tu u, add_field q (ft, VUint tu u) = q).
Proof.
  assert (contribution (ft, VInt t i) =
          if decide (i = 0) then [] else [Strconv.FormatInt i]) as Hc.
  { by rewrite contribution_cases. }
  split_and!.
  - exact Hc.
  - apply ParseInt_FormatInt.
  - intros q. rewrite add_field_Add, Hc. by destruct (decide (i = 0)).
  - destruct (encoder_output [(ft, VInt t i)]) as (q & Hq & Hp & _).
    exists q, (query_params [(ft, VInt t i)]). split_and!; [done..|].
    rewrite lookup_single_field, Hc. by destruct (decide (i = 0)).
  - intros q tu u. by destruct tu.
Qed.

(** C7 as the claim states it fails for the unsigned widths: a [uint32]
    field with the value 5 is not in the output. *)
Lemma unsigned_integer_field_is_skipped :
  let field := ({| Name := "Count"; Tag := [("query", "count")] |},
                VUint TUint32 5) in
  KindOf field.2 = Uint32 ∧
  StructToQueryString (VStruct [field]) = Ok "".
Proof. intros field. split; reflexivity. Qed.

(** C8: the encoder returns an error exactly when its input is not a
    struct, and the error is ["input is not a struct"]; on a struct it
    returns a query string; a field of a kind other than string, the signed
    integers, bool and slice leaves the parameters as they are. *)
Theorem only_a_non_struct_is_refused :
  (∀ data, KindOf data ≠ Struct ↔ ∃ e, StructToQueryString data = Err e) ∧
  (∀ data,
     KindOf data ≠ Struct →
     StructToQueryString data = Err (ErrorString "input is not a struct")) ∧
  (∀ data,
     KindOf data = Struct →
     StructToQueryString data =
     Ok (Url.Encode (query_params (Fields data)))) ∧
  (∀ q ft v, KindOf v ∉ encoded_kinds → add_field q (ft, v) = q).
Proof.
  split_and!.
  - intros data. split.
    + intros Hk. exists (ErrorString "input is not a struct").
      destruct data as [|b|t i|t u|s|elems|fs|t text]; try done;
        by destruct t.
    + intros [e He] Hk. unfold StructToQueryString in He.
      by rewrite Hk in He.
  - intros data Hk.
    destruct data as [|b|t i|t u|s|elems|fs|t text]; try done; by destruct t.
  - intros data Hk. unfold StructToQueryString. by rewrite Hk.
  - intros q ft v Hk. unfold encoded_kinds in Hk.
    destruct v as [|b|t i|t u|s|elems|fs|t text]; try done;
      try (by destruct t); exfalso; apply Hk; simpl; try destruct t;
      set_solver.
Qed.

(** A string is refused; a struct with one [float64] field encodes to the
    empty string. *)
Lemma only_a_non_struct_is_refused_witness :
  StructToQueryString (VString "limit=5") =
  Err (ErrorString "input is not a struct") ∧
  StructToQueryString
    (VStruct [({| Name := "Score"; Tag := [("query", "score")] |},
               VOther TFloat64 "3.5")]) = Ok "".
Proof.
  destruct only_a_non_struct_is_refused as (_ & H2 & H3 & H4). split.
  - apply H2. discriminate.
  - rewrite H3 by reflexivity. simpl Fields. unfold query_params.
    cbn [foldl]. rewrite H4; [reflexivity|].
    unfold encoded_kinds. simpl KindOf. intros H.
    repeat (apply elem_of_cons in H as [H|H]; [discriminate H|]).
    by apply elem_of_nil in H.
Defined.

(** C9: the query string of a struct decodes, by [url.ParseQuery],
    without error to the pairs the encoder wrote: under every name the
    values of the fields of that name, in order; encoding the decoded pairs
    gives the query string back; and a struct that carries the decoded
    pairs encodes to the same query string, hence to the same pairs. *)
Theorem encoding_round_trips (fields : list (StructField * Value)) :
  ∃ q m,
    StructToQueryString (VStruct fields) = Ok q ∧
    Url.ParseQuery q = (m, None) ∧
    (∀ k, default [] (m !! k) = values_under fields k) ∧
    Url.Encode m = q ∧
    (∀ fields',
       (∀ k, values_under fields' k = default [] (m !! k)) →
       StructToQueryString (VStruct fields') = Ok q ∧
       Url.ParseQuery q = (query_params fields', None) ∧
       Url.pairs (query_params fields') = Url.pairs m).
Proof.
  destruct (encoder_output fields) as (q & Hq & Hp & He).
  exists q, (query_params fields).
  split; [done|]. split; [done|]. split; [apply lookup_query_params|].
  split; [done|].
  intros fields' Heq.
  assert (query_params fields' = query_params fields) as Hsame.
  { apply populated_eq; [apply populated_query_params..|].
    intros k. by rewrite lookup_query_params, Heq. }
  rewrite StructToQueryString_struct, Hsame, He. done.
Qed.

(** Two structs that carry the same pairs encode to the same query
    string. *)
Lemma encoding_round_trips_witness :
  let limit := {| Name := "Limit"; Tag := [("query", "limit")] |} in
  let tags := {| Name := "Tags"; Tag := [("query", "tag")] |} in
  let one := {| Name := "One"; Tag := [("query", "tag")] |} in
  let two := {| Name := "Two"; Tag := [("query", "tag")] |} in
  StructToQueryString
    (VStruct [(limit, VInt TInt 5); (tags, VSlice [VString "a b"; VString "c&d"])]) =
  Ok "limit=5&tag=a+b&tag=c%26d" ∧
  StructToQueryString
    (VStruct [(one, VString "a b"); (limit, VString "5"); (two, VString "c&d")]) =
  Ok "limit=5&tag=a+b&tag=c%26d".
Proof.
  intros limit tags one two.
  destruct (encoding_round_trips
              [(limit, VInt TInt 5);
               (tags, VSlice [VString "a b"; VString "c&d"])])
    as (q & m & Hq & Hp & Hm & He & Hr).
  assert (q = "limit=5&tag=a+b&tag=c%26d") as Hqv.
  { vm_compute in Hq. by injection Hq as <-. }
  split; [by rewrite Hq, Hqv|].
  rewrite <- Hqv.
  apply (Hr [(one, VString "a b"); (limit, VString "5"); (two, VString "c&d")]).
  intros k. rewrite Hm, <- !lookup_query_params.
  by replace (query_params
                [(one, VString "a b"); (limit, VString "5");
                 (two, VString "c&d")])
    with (query_params
            [(limit, VInt TInt 5);
             (tags, VSlice [VString "a b"; VString "c&d"])])
    by (vm_compute; reflexivity).
Defined.

(** C10: a listing call whose filter has a non-empty [Token] hands the
    transport a URL with two [token] parameters: its query string is the
    encoded filter [q], then [&token=] and the token of the client; cut at
    the [&], it is the components of the pairs [ps] of the filter, of which
    exactly one has the key [token], the one of the field, followed by
    [token=] and the token of the client.  The call does hand a request to
    the transport whenever [http.NewRequestWithContext] accepts the method
    and the URL. *)
Theorem filter_token_and_client_token_are_both_sent `{W : World} (s : Client)
    (ctx : Ctx) :
  (∀ fl req,
     ListDealsFilterRequest.Token fl ≠ "" →
     EvDo req ∈ (ListDealsFilter s ctx fl).1 →
     ∃ q ps,
       StructToQueryString (ListDealsFilterRequest.ValueOf fl) = Ok q ∧
       URL req =
       baseUrl s +:+ "/" +:+ listDealsEndpoint +:+ "?" +:+ q +:+
       "&token=" +:+ token s ∧
       Strings.Split (q +:+ "&token=" +:+ token s) "&" =
       (component <$> ps) ++ Strings.Split ("token=" +:+ token s) "&" ∧
       filter (fun p => p.1 = "token") ps =
       [("token", ListDealsFilterRequest.Token fl)]) ∧
  (∀ fl req,
     ListContactsFilterRequest.Token fl ≠ "" →
     EvDo req ∈ (ListContactsFilter s ctx fl).1 →
     ∃ q ps,
       StructToQueryString (ListContactsFilterRequest.ValueOf fl) = Ok q ∧
       URL req =
       baseUrl s +:+ "/" +:+ listContactsEndpoint +:+ "?" +:+ q +:+
       "&token=" +:+ token s ∧
       Strings.Split (q +:+ "&token=" +:+ token s) "&" =
       (component <$> ps) ++ Strings.Split ("token=" +:+ token s) "&" ∧
       filter (fun p => p.1 = "token") ps =
       [("token", ListContactsFilterRequest.Token fl)]) ∧
  ((∀ method url, NewRequest_error method url = None) →
   (∀ fl, ∃ req, EvDo req ∈ (ListDealsFilter s ctx fl).1) ∧
   (∀ fl, ∃ req, EvDo req ∈ (ListContactsFilter s ctx fl).1)).
Proof.
  split_and!.
  - intros f req Htok. rewrite ListDealsFilter_wrapper. intros Hin.
    apply call_sent in Hin as (_ & _ & Hurl & _).
    destruct (listing_url s listDealsEndpoint _ _ (deals_filter_token f Htok))
      as (Hu & Hs & Hf).
    eexists _, _. split_and!; [reflexivity| |exact Hs|exact Hf].
    by rewrite Hurl.
  - intros f req Htok. rewrite ListContactsFilter_wrapper. intros Hin.
    apply call_sent in Hin as (_ & _ & Hurl & _).
    destruct (listing_url s listContactsEndpoint _ _
                (contacts_filter_token f Htok)) as (Hu & Hs & Hf).
    eexists _, _. split_and!; [reflexivity| |exact Hs|exact Hf].
    by rewrite Hurl.
  - intros Hnew. split.
    + intros f. rewrite ListDealsFilter_wrapper. unfold wrapper, call.
      rewrite request_nil, Hnew. cbv zeta. eexists.
      run_io. destruct (httpClient s _); [|apply list_elem_of_here].
      destruct (respond _ _ _ _ _). apply list_elem_of_here.
    + intros f. rewrite ListContactsFilter_wrapper. unfold wrapper, call.
      rewrite request_nil, Hnew. cbv zeta. eexists.
      run_io. destruct (httpClient s _); [|apply list_elem_of_here].
      destruct (respond _ _ _ _ _). apply list_elem_of_here.
Qed.

(** The listing of deals with the token [ftok] in the filter, by a client
    whose token is [T0K]. *)
Lemma filter_token_and_client_token_are_both_sent_witness :
  let s := sample_client sample_base
             (Ok (sample_response 200 (readable "{}"))) in
  ∃ req,
    EvDo req ∈ (ListDealsFilter s () sample_deals_filter).1 ∧
    URL req =
    "https://crm.example/api/v1/deals?direction=asc&limit=5&order=name&page=1&token=ftok&token=T0K".
Proof.
  intros s.
  destruct (filter_token_and_client_token_are_both_sent s ())
    as (Hdeals & _ & Hsent).
  destruct (Hsent (fun _ _ => eq_refl)) as [Hreq _].
  destruct (Hreq sample_deals_filter) as [req Hin].
  exists req. split; [exact Hin|].
  destruct (Hdeals sample_deals_filter req) as (q & ps & Hq & Hurl & _);
    [discriminate|exact Hin|].
  rewrite Hurl. vm_compute in Hq. injection Hq as <-. reflexivity.
Defined.

(** * Further properties of the calls *)

Section CallTheorems.

Import Reflect.
Context `{W : World}.

Ltac paths s ctx c r Hr :=
  pose proof (run_call_path s ctx c) as Hp;
  remember (run_call s ctx c) as r eqn:Hr;
  destruct Hp.

Ltac member H :=
  repeat (rewrite ?elem_of_app, ?elem_of_cons, ?elem_of_nil in H);
  repeat match type of H with
         | _ ∨ _ => destruct H as [H|H]
         end;
  try done;
  try (apply in_before_send in H; done).

(** X1: when the transport answers the request of a call with a status
    the wrapper accepts and a body that decodes, the call returns the
    decoded payload; the request is the only thing sent, the body is
    decoded, not read whole, and closed. *)
Theorem accepted_and_decoded_returns_the_payload (s : Client) (ctx : Ctx)
    (c : Call) (bytes : option string) (resp : Response)
    (x : call_payload c) :
  marshalled (call_body c) = Ok bytes →
  answered s ctx (call_method c) (call_endpoint c) bytes resp →
  call_accepts c (StatusCode resp) = true →
  Decode (Json:=call_json c) (Body resp) = Ok x →
  run_call s ctx c =
  (before_send (call_body c) ++
   [EvDo (call_request s ctx c bytes); EvDecode; EvClose], Ok x).
Proof.
  intros Hm [Hn Hresp] Hst Hdec. fold (call_request s ctx c bytes) in Hresp.
  paths s ctx c r Hr; simplify_eq; congruence.
Qed.

(** X2: a call returns a payload exactly when its body marshals, the
    request is made, the transport answers it with a status the wrapper
    accepts, and the body decodes to that payload. *)
Theorem a_payload_comes_from_an_accepted_response (s : Client) (ctx : Ctx)
    (c : Call) (x : call_payload c) :
  (run_call s ctx c).2 = Ok x ↔
  ∃ bytes resp,
    marshalled (call_body c) = Ok bytes ∧
    answered s ctx (call_method c) (call_endpoint c) bytes resp ∧
    call_accepts c (StatusCode resp) = true ∧
    Decode (Json:=call_json c) (Body resp) = Ok x.
Proof.
  split.
  - intros Hx. paths s ctx c r Hr; simpl in Hx; try done.
    simplify_eq. by eexists _, _.
  - intros (bytes & resp & Hm & [Hn Hresp] & Hst & Hdec).
    fold (call_request s ctx c bytes) in Hresp.
    paths s ctx c r Hr; simplify_eq; simpl; congruence.
Qed.

(** X3: when [http.NewRequestWithContext] refuses the method or the URL,
    nothing is sent and nothing is closed, and the call returns an error
    of the class [ErrRequestFailed] that wraps the refusal. *)
Theorem a_refused_request_is_not_sent (s : Client) (ctx : Ctx) (c : Call)
    (bytes : option string) (err : error) :
  marshalled (call_body c) = Ok bytes →
  NewRequest_error (call_method c) (request_url s (call_endpoint c)) =
  Some err →
  (run_call s ctx c).1 = before_send (call_body c) ∧
  (∀ req, ¬ (EvDo req ∈ (run_call s ctx c).1)) ∧
  ¬ (EvClose ∈ (run_call s ctx c).1) ∧
  request_failed (run_call s ctx c) (call_what c) err.
Proof.
  intros Hm Hn. paths s ctx c r Hr; try congruence.
  assert (err0 = err) as -> by congruence.
  split_and!.
  - done.
  - intros req Hin. simpl in Hin. member Hin.
  - intros Hin. simpl in Hin. member Hin.
  - unfold request_failed. simpl.
    rewrite on_request_eq by apply call_what_plain.
    by apply classified_intro.
Qed.

(** X4: a call calls the transport at most once, and once exactly when
    the body marshals and the request is made. *)
Theorem the_transport_is_called_at_most_once (s : Client) (ctx : Ctx)
    (c : Call) :
  (length (List.filter is_do (run_call s ctx c).1) ≤ 1)%nat ∧
  (length (List.filter is_do (run_call s ctx c).1) = 1%nat ↔
   ∃ bytes,
     marshalled (call_body c) = Ok bytes ∧
     NewRequest_error (call_method c) (request_url s (call_endpoint c)) =
     None).
Proof.
  paths s ctx c r Hr; simpl;
    rewrite ?List.filter_app, filter_do_before_send; simpl;
    (split; [lia|]); split; try done; try (intros; eauto; fail);
    intros (b & ? & ?); congruence.
Qed.

(** X5: the response body is closed exactly when the transport gave a
    response, once, as the last thing the call does; and a body is read
    whole or decoded, never both. *)
Theorem the_body_is_closed_exactly_when_there_is_a_response (s : Client)
    (ctx : Ctx) (c : Call) :
  (EvClose ∈ (run_call s ctx c).1 ↔
   ∃ bytes resp,
     marshalled (call_body c) = Ok bytes ∧
     answered s ctx (call_method c) (call_endpoint c) bytes resp) ∧
  (EvClose ∈ (run_call s ctx c).1 →
   ∃ l, (run_call s ctx c).1 = l ++ [EvClose] ∧ ¬ (EvClose ∈ l)) ∧
  ¬ (EvReadAll ∈ (run_call s ctx c).1 ∧ EvDecode ∈ (run_call s ctx c).1).
Proof.
  unfold answered.
  paths s ctx c r Hr; simpl; split_and!.
  all: try (intros [Hx Hy]; member Hx; member Hy; fail).
  all: try (intros Hin; member Hin; fail).
  all: try (intros _;
            exists (before_send (call_body c) ++
                    [EvDo (call_request s ctx c bytes); EvReadAll]);
            (split; [by rewrite <- List.app_assoc|]);
            intros Hin; member Hin; fail).
  all: try (intros _;
            exists (before_send (call_body c) ++
                    [EvDo (call_request s ctx c bytes); EvDecode]);
            (split; [by rewrite <- List.app_assoc|]);
            intros Hin; member Hin; fail).
  all: split.
  all: try (intros Hin; member Hin; fail).
  all: try (intros _; set_solver).
  all: try (intros _; by eexists _, _).
  all: intros (b & resp0 & ? & ? & ?); unfold call_request in *; congruence.
Qed.

(** X6: a call returns a payload, after decoding, or an error of one of
    the four classes, and the class tells how far the call went:
    [ErrRequestFailed] when no response arrived (nothing to close),
    [ErrReadResponseBody] or [ErrApiReturnedError] when the body of a
    rejected response was read, [ErrDecodeResponse] when the body of an
    accepted response was decoded. *)
Theorem every_error_has_the_class_of_its_stage (s : Client) (ctx : Ctx)
    (c : Call) :
  match (run_call s ctx c).2 with
  | Ok _ => EvDecode ∈ (run_call s ctx c).1
  | Err _ =>
      ∃ class text cause,
        classified (run_call s ctx c).2 class text cause ∧
        match class with
        | ErrRequestFailed => ¬ (EvClose ∈ (run_call s ctx c).1)
        | ErrReadResponseBody | ErrApiReturnedError =>
            EvReadAll ∈ (run_call s ctx c).1
        | ErrDecodeResponse => EvDecode ∈ (run_call s ctx c).1
        end
  end.
Proof.
  paths s ctx c r Hr; simpl in *.
  - rewrite on_request_eq by apply call_what_plain.
    eexists ErrRequestFailed, _, _. split; [by apply classified_intro|].
    intros Hin. member Hin.
  - rewrite on_request_eq by apply call_what_plain.
    eexists ErrRequestFailed, _, _. split; [by apply classified_intro|].
    intros Hin. member Hin.
  - rewrite on_request_eq by apply call_what_plain.
    eexists ErrRequestFailed, _, _. split; [by apply classified_intro|].
    intros Hin. member Hin.
  - rewrite on_read_eq by apply call_what_plain.
    eexists ErrReadResponseBody, _, _.
    split; [by apply classified_intro|set_solver].
  - rewrite on_status_eq by apply call_what_plain.
    eexists ErrApiReturnedError, _, _.
    split; [by apply classified_intro|set_solver].
  - rewrite on_decode_eq by apply call_what_plain.
    eexists ErrDecodeResponse, _, _.
    split; [by apply classified_intro|set_solver].
  - set_solver.
Qed.

(** X7: the error of a rejected response whose body was read is of the
    class [ErrApiReturnedError] and of no other class, whatever the text
    of the body. *)
Theorem an_api_error_is_of_no_other_class (s : Client) (ctx : Ctx)
    (c : Call) (bytes : option string) (resp : Response) :
  marshalled (call_body c) = Ok bytes →
  answered s ctx (call_method c) (call_endpoint c) bytes resp →
  call_accepts c (StatusCode resp) = false →
  read_error (Body resp) = None →
  ∃ e, (run_call s ctx c).2 = Err e ∧
       ∀ class, Is e (Sentinel class) = true ↔ class = ErrApiReturnedError.
Proof.
  intros Hm [Hn Hresp] Hst Hrd. fold (call_request s ctx c bytes) in Hresp.
  paths s ctx c r Hr; simplify_eq; try congruence.
  simpl. rewrite on_status_eq by apply call_what_plain.
  eexists. split; [done|]. intros class. simpl.
  destruct class; simpl; split; done.
Qed.

(** X8: when the body marshals and the request is made, the one request
    a call hands to the transport carries the context of the caller, the
    method of the wrapper, the URL [request] builds for the endpoint, the
    one header [Content-Type: application/json], and as body the bytes
    [json.Marshal] gave, none for a listing call. *)
Theorem the_request_is_the_one_request_builds (s : Client) (ctx : Ctx)
    (c : Call) (bytes : option string) :
  marshalled (call_body c) = Ok bytes →
  NewRequest_error (call_method c) (request_url s (call_endpoint c)) =
  None →
  List.filter is_do (run_call s ctx c).1 =
  [EvDo {| ReqCtx := ctx; Method := call_method c;
           URL := request_url s (call_endpoint c); ReqBody := bytes;
           Header := [("Content-Type", "application/json")] |}] ∧
  match c with
  | CallListDealsFilter _ | CallListContactsFilter _ => bytes = None
  | _ => ∃ b, bytes = Some b
  end.
Proof.
  intros Hm Hn. split; [by apply run_call_sends|].
  destruct c; simpl in *; try (by simplify_eq);
    destruct (Marshal _); simplify_eq; eauto.
Qed.

(** X9: when the transport fails, the request has been handed to it and
    nothing is read, decoded or closed; the call returns an error of the
    class [ErrRequestFailed] that wraps the error of the transport. *)
Theorem a_transport_error_ends_the_call (s : Client) (ctx : Ctx)
    (c : Call) (bytes : option string) (cause : error) :
  marshalled (call_body c) = Ok bytes →
  NewRequest_error (call_method c) (request_url s (call_endpoint c)) =
  None →
  httpClient s (call_request s ctx c bytes) = Err cause →
  (run_call s ctx c).1 =
  before_send (call_body c) ++ [EvDo (call_request s ctx c bytes)] ∧
  request_failed (run_call s ctx c) (call_what c) cause.
Proof.
  intros Hm Hn Hresp. paths s ctx c r Hr; try congruence.
  assert (bytes0 = bytes) as -> by congruence.
  assert (cause0 = cause) as -> by congruence.
  split; [done|]. unfold request_failed. simpl.
  rewrite on_request_eq by apply call_what_plain.
  by apply classified_intro.
Qed.

(** X10: a listing call with the zero filter requests the bare endpoint;
    with any other filter it adds [?] and the encoded filter to the
    endpoint, so that the token of the client is joined with [&]. *)
Theorem only_the_zero_filter_lists_the_bare_endpoint (s : Client)
    (ctx : Ctx) (f : ListDealsFilterRequest.t)
    (g : ListContactsFilterRequest.t) :
  (∃ endpoint,
     (f = empty_deals_filter → endpoint = listDealsEndpoint) ∧
     (f ≠ empty_deals_filter →
      ∃ q, StructToQueryString (ListDealsFilterRequest.ValueOf f) = Ok q ∧
           q ≠ "" ∧ endpoint = listDealsEndpoint +:+ "?" +:+ q ∧
           request_url s endpoint =
           baseUrl s +:+ "/" +:+ listDealsEndpoint +:+ "?" +:+ q +:+
           "&token=" +:+ token s) ∧
     (NewRequest_error MethodGet (request_url s endpoint) = None →
      List.filter is_do (ListDealsFilter s ctx f).1 =
      [EvDo (outgoing s ctx MethodGet endpoint None)])) ∧
  (∃ endpoint,
     (g = empty_contacts_filter → endpoint = listContactsEndpoint) ∧
     (g ≠ empty_contacts_filter →
      ∃ q, StructToQueryString (ListContactsFilterRequest.ValueOf g) = Ok q
           ∧ q ≠ "" ∧ endpoint = listContactsEndpoint +:+ "?" +:+ q ∧
           request_url s endpoint =
           baseUrl s +:+ "/" +:+ listContactsEndpoint +:+ "?" +:+ q +:+
           "&token=" +:+ token s) ∧
     (NewRequest_error MethodGet (request_url s endpoint) = None →
      List.filter is_do (ListContactsFilter s ctx g).1 =
      [EvDo (outgoing s ctx MethodGet endpoint None)])).
Proof.
  split.
  - exists (call_endpoint (CallListDealsFilter f)). split_and!.
    + by intros ->.
    + intros Hne. eexists. split; [apply StructToQueryString_struct|].
      assert (Url.Encode
                (query_params (Fields (ListDealsFilterRequest.ValueOf f)))
              ≠ "") as Hq.
      { intros He. by apply deals_filter_query in He. }
      split; [done|]. split; [|by apply with_query_url].
      simpl. by apply with_query_nonempty.
    + intros Hn. by apply (run_call_sends s ctx (CallListDealsFilter f)).
  - exists (call_endpoint (CallListContactsFilter g)). split_and!.
    + by intros ->.
    + intros Hne. eexists. split; [apply StructToQueryString_struct|].
      assert (Url.Encode
                (query_params
                   (Fields (ListContactsFilterRequest.ValueOf g)))
              ≠ "") as Hq.
      { intros He. by apply contacts_filter_query in He. }
      split; [done|]. split; [|by apply with_query_url].
      simpl. by apply with_query_nonempty.
    + intros Hn. by apply (run_call_sends s ctx (CallListContactsFilter g)).
Qed.

(** X11: an update call puts the id into the path as it is given, not
    escaped: when the endpoint is a text with one [%s], the request goes
    to the URL [request] builds for the text with the id in the place of
    the [%s], and an id with a [?] in it makes the token be joined with
    [&]. *)
Theorem the_id_goes_into_the_path_as_it_is (s : Client) (ctx : Ctx)
    (id pre post : string) (deal : UpdateDealRequest)
    (contact : UpdateContactRequest) (bytes : string) :
  Strings.all (isnt "%") pre = true → Strings.all (isnt "%") post = true →
  NewRequest_error MethodPut (request_url s (pre +:+ id +:+ post)) = None →
  (updateDealByIDEndpoint = pre +:+ "%s" +:+ post →
   Marshal deal = Ok bytes →
   List.filter is_do (UpdateDeal s ctx id deal).1 =
   [EvDo (outgoing s ctx MethodPut (pre +:+ id +:+ post) (Some bytes))]) ∧
  (updateContactByIDEndpoint = pre +:+ "%s" +:+ post →
   Marshal contact = Ok bytes →
   List.filter is_do (UpdateContact s ctx id contact).1 =
   [EvDo (outgoing s ctx MethodPut (pre +:+ id +:+ post) (Some bytes))]) ∧
  (Strings.Contains id "?" = true →
   request_url s (pre +:+ id +:+ post) =
   baseUrl s +:+ "/" +:+ pre +:+ id +:+ post +:+ "&token=" +:+ token s).
Proof.
  intros Hpre Hpost Hn. split_and!.
  - intros Ht Hm.
    pose proof (run_call_sends s ctx (CallUpdateDeal id deal) (Some bytes))
      as Hs.
    unfold call_request in Hs.
    cbn [run_call call_body call_method call_endpoint] in Hs.
    rewrite Ht, Sprintf_one in Hs by done.
    apply Hs; [by apply marshalled_body|done].
  - intros Ht Hm.
    pose proof (run_call_sends s ctx (CallUpdateContact id contact)
                  (Some bytes)) as Hs.
    unfold call_request in Hs.
    cbn [run_call call_body call_method call_endpoint] in Hs.
    rewrite Ht, Sprintf_one in Hs by done.
    apply Hs; [by apply marshalled_body|done].
  - intros Hid. rewrite request_url_eq, !Contains_byte_app, Hid.
    rewrite !orb_true_r, orb_true_l || rewrite ?orb_true_r.
    by rewrite !string_app_assoc.
Qed.

End CallTheorems.

(** * Further properties of the encoder *)

Section EncoderTheorems.

Import Reflect.

(** X12: the output of [StructToQueryString] on a struct is, between the
    [&], the escaped pairs [name=value] with the names in ascending byte
    order, and under each name the values of the fields of that name in
    the order of the fields. *)
Theorem parameters_come_out_sorted_by_name (v : Value) (q : string) :
  StructToQueryString v = Ok q → q ≠ "" →
  ∃ fields ps,
    v = VStruct fields ∧
    Strings.Split q "&" = component <$> ps ∧
    StronglySorted String.le ps.*1 ∧
    ∀ k, values_of k ps = values_under fields k.
Proof.
  intros (fields & -> & ->)%StructToQueryString_Ok Hq.
  exists fields, (Url.pairs (query_params fields)). split_and!; [done| | |].
  - apply Split_encoded. intros Hnil. apply Hq. unfold Url.Encode.
    by rewrite Hnil.
  - apply pairs_sorted.
  - intros k. unfold values_of.
    rewrite filter_pairs, lookup_query_params, <- list_fmap_compose.
    apply list_fmap_id.
Qed.

(** X13: the order in which a struct declares its fields does not show in
    the output, as long as no two fields have the same parameter name. *)
Theorem field_order_does_not_matter
    (fields fields' : list (StructField * Value)) :
  fields ≡ₚ fields' → NoDup (param_names fields) →
  StructToQueryString (VStruct fields) =
  StructToQueryString (VStruct fields').
Proof.
  intros Hp Hnd. rewrite !StructToQueryString_struct. do 2 f_equal.
  apply query_params_values. intros k. by apply values_under_perm.
Qed.

(** X14: the output of [StructToQueryString] holds only bytes that
    [url.QueryEscape] leaves alone and the bytes [%], [+], [=] and [&]:
    no byte of a name or a value can end the query or start a new
    parameter. *)
Theorem output_is_made_of_query_bytes (v : Value) (q : string) :
  StructToQueryString v = Ok q →
  Strings.all query_byte q = true ∧
  ∀ c, query_byte c = false → Strings.Contains q (String.String c "") = false.
Proof.
  intros (fields & -> & ->)%StructToQueryString_Ok.
  pose proof (all_query_byte_Encode (query_params fields)) as Hq.
  split; [done|]. intros c Hc. by apply all_no_byte.
Qed.

(** X15: a field at its zero value, or of a kind the encoder has no case
    for, leaves the output as it is without the field. *)
Theorem a_field_at_zero_value_is_as_if_absent
    (fields1 fields2 : list (StructField * Value)) (f : StructField * Value) :
  at_zero_value f.2 →
  StructToQueryString (VStruct (fields1 ++ f :: fields2)) =
  StructToQueryString (VStruct (fields1 ++ fields2)).
Proof.
  intros Hz. rewrite !StructToQueryString_struct. do 2 f_equal.
  apply query_params_values. intros k.
  rewrite !values_under_app, values_under_cons, contribution_at_zero by done.
  by destruct (decide _).
Qed.

(** X16: every element of a slice field is sent, in order, under the
    name of the field, also an element that is the zero value of its
    type; the output decodes to a map that has them. *)
Theorem slice_elements_are_all_sent (fields : list (StructField * Value))
    (ft : StructField) (elems : list Value) :
  (ft, VSlice elems) ∈ fields → elems ≠ [] →
  ∃ q m vs,
    StructToQueryString (VStruct fields) = Ok q ∧
    Url.ParseQuery q = (m, None) ∧
    m !! param_name ft = Some vs ∧
    sublist (Sprintf_v <$> elems) vs.
Proof.
  intros Hin Hne.
  pose proof (values_under_sublist _ _ Hin) as Hs.
  rewrite contribution_cases in Hs. simpl in Hs.
  rewrite <- lookup_query_params in Hs.
  eexists _, _, (default [] (query_params fields !! param_name ft)).
  split_and!; [apply StructToQueryString_struct
              |apply StructToQueryString_decodes| |done].
  destruct (query_params fields !! param_name ft) as [vs|] eqn:Hl; [done|].
  simpl in Hs. apply sublist_nil_r in Hs.
  by destruct elems.
Qed.

(** X17: two filters that differ in a field give different query
    strings: the listing calls lose nothing of the filter. *)
Theorem different_filters_give_different_queries
    (f g : ListDealsFilterRequest.t) (f' g' : ListContactsFilterRequest.t) :
  (StructToQueryString (ListDealsFilterRequest.ValueOf f) =
   StructToQueryString (ListDealsFilterRequest.ValueOf g) → f = g) ∧
  (StructToQueryString (ListContactsFilterRequest.ValueOf f') =
   StructToQueryString (ListContactsFilterRequest.ValueOf g') → f' = g').
Proof.
  split; intros He.
  - by apply deals_filter_inj, StructToQueryString_inj.
  - by apply contacts_filter_inj, StructToQueryString_inj.
Qed.

End EncoderTheorems.

(** * The properties at work *)

(** The creation of a deal answered [201] with a body that decodes. *)
Lemma accepted_and_decoded_returns_the_payload_witness :
  let resp := sample_response 201 (readable "{deal}") in
  let s := sample_client sample_base (Ok resp) in
  CreateDeal s () "x" =
  ([EvMarshal; EvDo (outgoing s () MethodPost "deals" (Some "{x}"));
    EvDecode; EvClose], Ok "{deal}").
Proof.
  intros resp s.
  exact (accepted_and_decoded_returns_the_payload s ()
           (@CallCreateDeal sample_world "x") (Some "{x}") resp "{deal}"
           eq_refl (conj eq_refl eq_refl) eq_refl eq_refl).
Defined.

Lemma a_payload_comes_from_an_accepted_response_witness :
  let resp := sample_response 200 (readable "{contact}") in
  let s := sample_client sample_base (Ok resp) in
  (UpdateContact s () "7" "x").2 = Ok "{contact}".
Proof.
  intros resp s.
  apply (a_payload_comes_from_an_accepted_response s ()
           (@CallUpdateContact sample_world "7" "x") "{contact}").
  exists (Some "{x}"), resp.
  split; [reflexivity|]. split; [split; reflexivity|]. split; reflexivity.
Defined.

(** A base URL with a space in it is refused. *)
Lemma a_refused_request_is_not_sent_witness :
  let s := strict_client "https://crm example"
             (Ok (sample_response 200 (readable "{}"))) in
  (UpdateContact s () "7" "x").1 = [EvMarshal] ∧
  (UpdateContact s () "7" "x").2 =
  Err (WrapErrors
         "http request execution failed: error making request to update contact: net/url: invalid character in host name"
         [Sentinel ErrRequestFailed;
          ErrorString "net/url: invalid character in host name"]).
Proof.
  intros s.
  destruct (a_refused_request_is_not_sent s ()
              (@CallUpdateContact strict_world "7" "x") (Some "{x}")
              (ErrorString "net/url: invalid character in host name")
              eq_refl eq_refl) as (Hlog & _ & _ & e & Hr & -> & _).
  split; [exact Hlog|exact Hr].
Defined.

Lemma the_transport_is_called_at_most_once_witness :
  let s := sample_client sample_base
             (Ok (sample_response 200 (readable "{}"))) in
  length (List.filter is_do (ListContactsFilter s () sample_contacts_filter).1)
  = 1%nat.
Proof.
  intros s.
  apply (the_transport_is_called_at_most_once s ()
           (@CallListContactsFilter sample_world sample_contacts_filter)).
  by exists None.
Defined.

Lemma the_body_is_closed_exactly_when_there_is_a_response_witness :
  let s := sample_client sample_base
             (Ok (sample_response 500 (broken "oops"))) in
  ∃ l, (CreateContact s () "x").1 = l ++ [EvClose] ∧ ¬ (EvClose ∈ l).
Proof.
  intros s.
  destruct (the_body_is_closed_exactly_when_there_is_a_response s ()
              (@CallCreateContact sample_world "x")) as (Hiff & Hlast & _).
  apply Hlast, Hiff.
  exists (Some "{x}"), (sample_response 500 (broken "oops")).
  split; [reflexivity|split; reflexivity].
Defined.

(** A transport that fails: the class is [ErrRequestFailed]. *)
Lemma every_error_has_the_class_of_its_stage_witness :
  let s := sample_client sample_base
             (Err (ErrorString "dial tcp: connection refused")) in
  ∃ class text cause,
    classified (ListDealsFilter s () sample_deals_filter).2 class text cause
    ∧ match class with
      | ErrRequestFailed =>
          ¬ (EvClose ∈ (ListDealsFilter s () sample_deals_filter).1)
      | ErrReadResponseBody | ErrApiReturnedError =>
          EvReadAll ∈ (ListDealsFilter s () sample_deals_filter).1
      | ErrDecodeResponse =>
          EvDecode ∈ (ListDealsFilter s () sample_deals_filter).1
      end.
Proof.
  intros s.
  exact (every_error_has_the_class_of_its_stage s ()
           (@CallListDealsFilter sample_world sample_deals_filter)).
Defined.

Lemma an_api_error_is_of_no_other_class_witness :
  let resp := sample_response 404
                (readable "failed to decode api response") in
  let s := sample_client sample_base (Ok resp) in
  ∃ e, (UpdateDeal s () "42" "x").2 = Err e ∧
       Is e (Sentinel ErrApiReturnedError) = true ∧
       Is e (Sentinel ErrDecodeResponse) = false.
Proof.
  intros resp s.
  destruct (an_api_error_is_of_no_other_class s ()
              (@CallUpdateDeal sample_world "42" "x") (Some "{x}") resp
              eq_refl (conj eq_refl eq_refl) eq_refl eq_refl)
    as (e & Hr & Hclass).
  exists e. split; [exact Hr|]. split; [by apply Hclass|].
  destruct (Is e (Sentinel ErrDecodeResponse)) eqn:His; [|done].
  by apply Hclass in His.
Defined.

Lemma the_request_is_the_one_request_builds_witness :
  let s := sample_client sample_base
             (Ok (sample_response 200 (readable "{}"))) in
  List.filter is_do (UpdateDeal s () "42" "x").1 =
  [EvDo (@Build_Request sample_world () "PUT"
           "https://crm.example/api/v1/deals/42?token=T0K" (Some "{x}")
           [("Content-Type", "application/json")])].
Proof.
  intros s.
  exact (proj1 (the_request_is_the_one_request_builds s ()
                  (@CallUpdateDeal sample_world "42" "x") (Some "{x}")
                  eq_refl eq_refl)).
Defined.

Lemma a_transport_error_ends_the_call_witness :
  let s := sample_client sample_base
             (Err (ErrorString "dial tcp: connection refused")) in
  (CreateContact s () "x").1 =
  [EvMarshal; EvDo (outgoing s () MethodPost "contacts" (Some "{x}"))].
Proof.
  intros s.
  exact (proj1 (a_transport_error_ends_the_call s ()
                  (@CallCreateContact sample_world "x") (Some "{x}")
                  (ErrorString "dial tcp: connection refused")
                  eq_refl eq_refl eq_refl)).
Defined.

(** The listing of deals with a filter that has the page only. *)
Lemma only_the_zero_filter_lists_the_bare_endpoint_witness :
  let s := sample_client sample_base
             (Ok (sample_response 200 (readable "{}"))) in
  ∃ endpoint,
    request_url s endpoint =
    "https://crm.example/api/v1/contacts?limit=5&page=1&token=ftok&token=T0K"
    ∧ List.filter is_do
        (ListContactsFilter s () sample_contacts_filter).1 =
      [EvDo (outgoing s () MethodGet endpoint None)].
Proof.
  intros s.
  destruct (only_the_zero_filter_lists_the_bare_endpoint s ()
              sample_deals_filter sample_contacts_filter)
    as (_ & endpoint & _ & Hq & Hsent).
  exists endpoint. destruct Hq as (q & Hq & _ & _ & ->); [discriminate|].
  split; [|by apply Hsent].
  vm_compute in Hq. injection Hq as <-. reflexivity.
Defined.

(** An id with a [?] in it. *)
Lemma the_id_goes_into_the_path_as_it_is_witness :
  let s := sample_client sample_base
             (Ok (sample_response 200 (readable "{}"))) in
  List.filter is_do (UpdateDeal s () "42?x=1" "x").1 =
  [EvDo (outgoing s () MethodPut "deals/42?x=1" (Some "{x}"))] ∧
  request_url s "deals/42?x=1" =
  "https://crm.example/api/v1/deals/42?x=1&token=T0K".
Proof.
  intros s.
  destruct (the_id_goes_into_the_path_as_it_is s () "42?x=1" "deals/" ""
              "x" "x" "{x}" eq_refl eq_refl eq_refl) as (Hd & _ & Hu).
  split; [exact (Hd eq_refl eq_refl)|exact (Hu eq_refl)].
Defined.

(** The filter of the deals, encoded. *)
Lemma parameters_come_out_sorted_by_name_witness :
  ∃ ps,
    Strings.Split "direction=asc&limit=5&order=name&page=1&token=ftok" "&" =
    component <$> ps ∧
    StronglySorted String.le ps.*1 ∧
    values_of "page" ps = ["1"].
Proof.
  destruct (parameters_come_out_sorted_by_name
              (ListDealsFilterRequest.ValueOf sample_deals_filter)
              "direction=asc&limit=5&order=name&page=1&token=ftok")
    as (fields & ps & Hv & Hsplit & Hsorted & Hvals);
    [reflexivity|discriminate|].
  exists ps. split; [exact Hsplit|]. split; [exact Hsorted|].
  rewrite Hvals. injection Hv as <-. reflexivity.
Defined.

(** Two fields, declared in one order and in the other. *)
Lemma field_order_does_not_matter_witness :
  let a := string_field "Page" "page" "page" "2" in
  let b := (Reflect.Build_StructField "Limit" [],
            Reflect.VInt Reflect.TInt 5) in
  StructToQueryString (Reflect.VStruct [a; b]) =
  StructToQueryString (Reflect.VStruct [b; a]).
Proof.
  intros a b. apply field_order_does_not_matter.
  - apply perm_swap.
  - apply (bool_decide_unpack _). reflexivity.
Defined.

(** A value with a space, a [?], a [&] and a [#] in it. *)
Lemma output_is_made_of_query_bytes_witness :
  StructToQueryString
    (Reflect.VStruct [string_field "Q" "q" "q" "a b?c&d#e"]) =
  Ok "q=a+b%3Fc%26d%23e" ∧
  Strings.Contains "q=a+b%3Fc%26d%23e" "?" = false ∧
  Strings.Contains "q=a+b%3Fc%26d%23e" "#" = false.
Proof.
  split; [reflexivity|].
  destruct (output_is_made_of_query_bytes
              (Reflect.VStruct [string_field "Q" "q" "q" "a b?c&d#e"])
              "q=a+b%3Fc%26d%23e" eq_refl) as [_ H].
  split; apply H; reflexivity.
Defined.

(** An empty string between two fields with a value. *)
Lemma a_field_at_zero_value_is_as_if_absent_witness :
  let a := string_field "Page" "page" "page" "2" in
  let z := string_field "Name" "name" "name" "" in
  let b := string_field "Win" "win" "win" "true" in
  StructToQueryString (Reflect.VStruct [a; z; b]) =
  StructToQueryString (Reflect.VStruct [a; b]).
Proof.
  intros a z b.
  exact (a_field_at_zero_value_is_as_if_absent [a] [b] z eq_refl).
Defined.

(** A slice with an empty string in the middle. *)
Lemma slice_elements_are_all_sent_witness :
  let ft := Reflect.Build_StructField "Tags" [("query", "tag")] in
  let elems := [Reflect.VString "a"; Reflect.VString ""; Reflect.VString "b"]
  in
  ∃ q m vs,
    StructToQueryString (Reflect.VStruct [(ft, Reflect.VSlice elems)]) = Ok q
    ∧ Url.ParseQuery q = (m, None) ∧ m !! "tag" = Some vs ∧
    sublist ["a"; ""; "b"] vs.
Proof.
  intros ft elems.
  apply (slice_elements_are_all_sent [(ft, Reflect.VSlice elems)] ft elems).
  - apply list_elem_of_here.
  - discriminate.
Defined.

(** Two filters that differ in the page, and a filter written twice. *)
Lemma different_filters_give_different_queries_witness :
  let f := sample_contacts_filter in
  let g := ListContactsFilterRequest.Build_t "ftok" "2" "5" "" "" "" "" "" ""
  in
  let f' := ListContactsFilterRequest.Build_t "ftok" "1" "5" "" "" "" "" "" ""
  in
  f = f' ∧
  StructToQueryString (ListContactsFilterRequest.ValueOf f) ≠
  StructToQueryString (ListContactsFilterRequest.ValueOf g).
Proof.
  intros f g f'. split.
  - exact (proj2 (different_filters_give_different_queries
                    sample_deals_filter sample_deals_filter f f') eq_refl).
  - intros He.
    destruct (different_filters_give_different_queries sample_deals_filter
                sample_deals_filter f g) as [_ H].
    specialize (H He). discriminate H.
Defined.
